(** * Shallow embedding of the Bitcoin transaction codec (src/src/lib.rs)

    Rust integers are modelled as [Z]: a [u8] is a [Z] in [0, 256), [u32] in
    [0, 2^32), [u64] and [usize] (64-bit target) in [0, 2^64).  Byte buffers
    ([&[u8]], [Vec<u8>]) are [list Z].  A decode function returns a [Res]:
    [Ok], [Err] with a [BitcoinError], or [Panic] for a Rust panic (slice
    out of range, or an arithmetic overflow when overflow checks are on). *)

From Stdlib Require Import ZArith Lia String Ascii Bool List.
Import ListNotations.
Open Scope Z_scope.

(** ** Errors and the result monad *)

Inductive BitcoinError :=
| InsufficientBytes
| InvalidFormat.

Inductive Res (A : Type) :=
| Ok (a : A)
| Err (e : BitcoinError)
| Panic.
Arguments Ok {A} a.
Arguments Err {A} e.
Arguments Panic {A}.

(** The [?] operator, extended with panic propagation. *)
Definition bind {A B} (m : Res A) (k : A -> Res B) : Res B :=
  match m with
  | Ok a => k a
  | Err e => Err e
  | Panic => Panic
  end.

Notation "'let*' p := m 'in' k" := (bind m (fun p => k))
  (at level 200, p pattern, m at level 100, k at level 200).

(** ** Machine-level helpers *)

(** [x.to_le_bytes()] of an [n]-byte unsigned integer. *)
Fixpoint to_le (n : nat) (v : Z) : list Z :=
  match n with
  | O => []
  | S n' => v mod 256 :: to_le n' (v / 256)
  end.

(** [uN::from_le_bytes(bs)]. *)
Fixpoint from_le (bs : list Z) : Z :=
  match bs with
  | [] => 0
  | b :: bs' => b + 256 * from_le bs'
  end.

Definition len (bytes : list Z) : Z := Z.of_nat (List.length bytes).

(** [[bytes[o], bytes[o+1], ..., bytes[o+n-1]]]; every use is preceded by a
    length check of the source, so the indices are in bounds. *)
Definition read_le (bytes : list Z) (o : Z) (n : nat) : Z :=
  from_le (firstn n (skipn (Z.to_nat o) bytes)).

(** [&bytes[a..]]: panics when [a > bytes.len()]. *)
Definition slice_from {A} (bytes : list Z) (a : Z) (k : list Z -> Res A) : Res A :=
  if a <=? len bytes then k (skipn (Z.to_nat a) bytes) else Panic.

(** [&bytes[a..b]]: panics when [a > b] or [b > bytes.len()]. *)
Definition slice {A} (bytes : list Z) (a b : Z) (k : list Z -> Res A) : Res A :=
  if (a <=? b) && (b <=? len bytes)
  then k (firstn (Z.to_nat (b - a)) (skipn (Z.to_nat a) bytes))
  else Panic.

(** [a + b] on [usize]: with overflow checks (debug builds) an overflow
    panics; without them (release builds) it wraps modulo 2^64. *)
Definition usize_add {A} (overflow_checks : bool) (a b : Z) (k : Z -> Res A) : Res A :=
  if a + b <? 2 ^ 64 then k (a + b)
  else if overflow_checks then Panic
  else k ((a + b) mod 2 ^ 64).

(** ** CompactSize *)

Record CompactSize := CompactSize_new { value : Z }.

Module CompactSize.

Definition new (v : Z) : CompactSize := CompactSize_new v.

Definition to_bytes (self : CompactSize) : list Z :=
  let v := value self in
  if v <=? 0xFC then [v mod 256]
  else if v <=? 0xFFFF then 0xFD :: to_le 2 (v mod 2 ^ 16)
  else if v <=? 0xFFFFFFFF then 0xFE :: to_le 4 (v mod 2 ^ 32)
  else 0xFF :: to_le 8 v.

Definition from_bytes (bytes : list Z) : Res (CompactSize * Z) :=
  match bytes with
  | [] => Err InsufficientBytes
  | b0 :: _ =>
      if b0 =? 0xFD then
        if len bytes <? 3 then Err InsufficientBytes
        else Ok (new (read_le bytes 1 2), 3)
      else if b0 =? 0xFE then
        if len bytes <? 5 then Err InsufficientBytes
        else Ok (new (read_le bytes 1 4), 5)
      else if b0 =? 0xFF then
        if len bytes <? 9 then Err InsufficientBytes
        else Ok (new (read_le bytes 1 8), 9)
      else Ok (new b0, 1)
  end.

End CompactSize.

(** ** Txid and OutPoint *)

(** [pub struct Txid(pub [u8; 32])]. *)
Record Txid := Txid_new { txid0 : list Z }.

Record OutPoint := OutPoint_mk { txid : Txid; vout : Z }.

Module OutPoint.

Definition new (txid : list Z) (vout : Z) : OutPoint :=
  OutPoint_mk (Txid_new txid) vout.

Definition to_bytes (self : OutPoint) : list Z :=
  txid0 (txid self) ++ to_le 4 (vout self).

Definition from_bytes (bytes : list Z) : Res (OutPoint * Z) :=
  if len bytes <? 36 then Err InsufficientBytes
  else
    let txid := firstn 32 bytes in
    let vout := read_le bytes 32 4 in
    Ok (new txid vout, 36).

End OutPoint.

(** ** Script *)

Record Script := Script_new { bytes : list Z }.

Module Script.

Definition new (bytes : list Z) : Script := Script_new bytes.

(** [self.bytes.len() as u64] is lossless: the target is 64-bit. *)
Definition to_bytes (self : Script) : list Z :=
  CompactSize.to_bytes (CompactSize.new (Z.of_nat (List.length (bytes self))))
    ++ bytes self.

Section WithOverflowChecks.
Variable overflow_checks : bool.

(** [size.value as usize] is the identity on a 64-bit target.  The sum
    [size_bytes + script_len] is written three times in the source; it is
    computed once here (a debug build panics at the first one already). *)
Definition from_bytes (bytes : list Z) : Res (Script * Z) :=
  let* (size, size_bytes) := CompactSize.from_bytes bytes in
  let script_len := value size in
  usize_add overflow_checks size_bytes script_len (fun end_ =>
  if len bytes <? end_ then Err InsufficientBytes
  else
    slice bytes size_bytes end_ (fun script_bytes =>
    Ok (new script_bytes, end_))).

End WithOverflowChecks.
End Script.

(** ** TransactionInput *)

Record TransactionInput := TransactionInput_new {
  previous_output : OutPoint;
  script_sig : Script;
  sequence : Z
}.

Module TransactionInput.

Definition new (previous_output : OutPoint) (script_sig : Script) (sequence : Z)
  : TransactionInput :=
  TransactionInput_new previous_output script_sig sequence.

Definition to_bytes (self : TransactionInput) : list Z :=
  OutPoint.to_bytes (previous_output self)
    ++ Script.to_bytes (script_sig self)
    ++ to_le 4 (sequence self).

Section WithOverflowChecks.
Variable overflow_checks : bool.

(** The sums of offsets are bounded by [bytes.len() + 4] and cannot overflow. *)
Definition from_bytes (bytes : list Z) : Res (TransactionInput * Z) :=
  let* (previous_output, outpoint_bytes) := OutPoint.from_bytes bytes in
  slice_from bytes outpoint_bytes (fun rest =>
  let* (script_sig, script_bytes) := Script.from_bytes overflow_checks rest in
  if len bytes <? outpoint_bytes + script_bytes + 4 then Err InsufficientBytes
  else
    let sequence := read_le bytes (outpoint_bytes + script_bytes) 4 in
    Ok (new previous_output script_sig sequence, outpoint_bytes + script_bytes + 4)).

End WithOverflowChecks.
End TransactionInput.

(** ** BitcoinTransaction *)

Record BitcoinTransaction := BitcoinTransaction_new {
  version : Z;
  inputs : list TransactionInput;
  lock_time : Z
}.

Module BitcoinTransaction.

Definition new (version : Z) (inputs : list TransactionInput) (lock_time : Z)
  : BitcoinTransaction :=
  BitcoinTransaction_new version inputs lock_time.

(** [self.inputs.len() as u64] is lossless on a 64-bit target; the [for]
    loop appending each input's encoding is the [fold_left]. *)
Definition to_bytes (self : BitcoinTransaction) : list Z :=
  let bytes := to_le 4 (version self) in
  let bytes := bytes ++ CompactSize.to_bytes
                 (CompactSize.new (Z.of_nat (List.length (inputs self)))) in
  let bytes := fold_left (fun bytes input => bytes ++ TransactionInput.to_bytes input)
                 (inputs self) bytes in
  bytes ++ to_le 4 (lock_time self).

Section WithOverflowChecks.
Variable overflow_checks : bool.

(** The loop [for _ in 0..input_count.value]: [k] iterations remain, with
    the inputs decoded so far and the running [offset]. *)
Fixpoint decode_inputs (k : nat) (bytes : list Z) (inputs : list TransactionInput)
    (offset : Z) : Res (list TransactionInput * Z) :=
  match k with
  | O => Ok (inputs, offset)
  | S k' =>
      slice_from bytes offset (fun rest =>
      let* (input, input_bytes) := TransactionInput.from_bytes overflow_checks rest in
      decode_inputs k' bytes (inputs ++ [input]) (offset + input_bytes))
  end.

Definition from_bytes (bytes : list Z) : Res (BitcoinTransaction * Z) :=
  if len bytes <? 8 then Err InsufficientBytes
  else
    let version := read_le bytes 0 4 in
    slice_from bytes 4 (fun rest =>
    let* (input_count, offset) := CompactSize.from_bytes rest in
    let offset := offset + 4 in
    let* (inputs, offset) := decode_inputs (Z.to_nat (value input_count)) bytes [] offset in
    if len bytes <? offset + 4 then Err InsufficientBytes
    else
      let lock_time := read_le bytes offset 4 in
      Ok (new version inputs lock_time, offset + 4)).

End WithOverflowChecks.
End BitcoinTransaction.

(** ** Text form of a Txid (serde, through the [hex] crate)

    A Rust string is its UTF-8 byte sequence; a Rocq [string] is a list of
    8-bit [ascii] bytes, so it models one directly.  [serialize_str] and
    [String::deserialize] carry the string unchanged; the model starts and
    ends at that string. *)

Inductive result (A E : Type) :=
| ROk (a : A)
| RErr (e : E).
Arguments ROk {A E} a.
Arguments RErr {A E} e.

Module hex.

Inductive FromHexError :=
| InvalidHexCharacter (c : ascii) (index : Z)
| OddLength.

Definition HEX_CHARS_LOWER : list ascii := list_ascii_of_string "0123456789abcdef".

(** [hex::encode]: per byte, [table[(byte >> 4)]] then [table[(byte & 0x0f)]]. *)
Fixpoint encode_bytes (data : list Z) : string :=
  match data with
  | [] => EmptyString
  | b :: data' =>
      String (nth (Z.to_nat (Z.shiftr b 4)) HEX_CHARS_LOWER "0"%char)
        (String (nth (Z.to_nat (Z.land b 15)) HEX_CHARS_LOWER "0"%char)
           (encode_bytes data'))
  end.

Definition encode (data : list Z) : string := encode_bytes data.

(** [fn val(c: u8, idx: usize) -> Result<u8, FromHexError>]. *)
Definition val (c : ascii) (idx : Z) : result Z FromHexError :=
  let n := Z.of_nat (nat_of_ascii c) in
  if (65 <=? n) && (n <=? 70) then ROk (n - 65 + 10)
  else if (97 <=? n) && (n <=? 102) then ROk (n - 97 + 10)
  else if (48 <=? n) && (n <=? 57) then ROk (n - 48)
  else RErr (InvalidHexCharacter c idx).

(** [hex.chunks(2).enumerate().map(|(i, pair)| Ok(val(pair[0], 2 * i)? << 4
    | val(pair[1], 2 * i + 1)?)).collect()]: stops at the first error. *)
Fixpoint decode_chunks (cs : list ascii) (i : Z) : result (list Z) FromHexError :=
  match cs with
  | c0 :: c1 :: rest =>
      match val c0 (2 * i) with
      | RErr e => RErr e
      | ROk hi =>
          match val c1 (2 * i + 1) with
          | RErr e => RErr e
          | ROk lo =>
              match decode_chunks rest (i + 1) with
              | RErr e => RErr e
              | ROk bs => ROk (Z.lor (Z.shiftl hi 4) lo :: bs)
              end
          end
      end
  | _ => ROk []
  end.

(** [hex::decode]: odd length is rejected before any character is read. *)
Definition decode (s : string) : result (list Z) FromHexError :=
  let cs := list_ascii_of_string s in
  if negb (Nat.eqb (Nat.modulo (List.length cs) 2) 0) then RErr OddLength
  else decode_chunks cs 0.

End hex.

(** [serde::de::Error::custom(msg)]: built from a message, or from the
    [Display] of a [hex::FromHexError]. *)
Inductive DeError :=
| Custom (msg : string)
| CustomHex (e : hex.FromHexError).

Module Txid.

Definition serialize (self : Txid) : string := hex.encode (txid0 self).

Definition deserialize (s : string) : result Txid DeError :=
  match hex.decode s with
  | RErr e => RErr (CustomHex e)
  | ROk bytes =>
      if Nat.eqb (List.length bytes) 32 then ROk (Txid_new bytes)
      else RErr (Custom "Txid must be 32 bytes (64 hex characters)")
  end.

End Txid.

(** ** Statements that follow the spec's words *)

(** "[v] as [n] little-endian bytes": byte [i] is [(v / 256^i) mod 256]. *)
Definition le_bytes (n : nat) (v : Z) : list Z :=
  map (fun i => (v / 256 ^ Z.of_nat i) mod 256) (seq 0 n).

(** Whether a decode result is [Err(InvalidFormat)]. *)
Definition is_invalid_format {A} (r : Res A) : bool :=
  match r with
  | Err InvalidFormat => true
  | _ => false
  end.

(** Range of Rust's fixed-width unsigned types; a [Vec] or slice holds at
    most [isize::MAX] elements. *)
Definition u32_ok (v : Z) : Prop := 0 <= v < 2 ^ 32.
Definition u64_ok (v : Z) : Prop := 0 <= v < 2 ^ 64.
Definition bytes_ok (l : list Z) : Prop := Forall (fun b => 0 <= b < 256) l.
Definition vec_len_ok {A} (l : list A) : Prop := Z.of_nat (List.length l) < 2 ^ 63.

Definition outpoint_ok (o : OutPoint) : Prop :=
  List.length (txid0 (txid o)) = 32%nat /\ u32_ok (vout o).
Definition script_ok (sc : Script) : Prop := vec_len_ok (bytes sc).
Definition input_ok (i : TransactionInput) : Prop :=
  outpoint_ok (previous_output i) /\ script_ok (script_sig i) /\ u32_ok (sequence i).
Definition tx_ok (t : BitcoinTransaction) : Prop :=
  u32_ok (version t) /\ vec_len_ok (inputs t) /\ Forall input_ok (inputs t)
  /\ u32_ok (lock_time t).

(** ASCII lowercase of the letters [A]..[F]; every other character unchanged. *)
Definition hex_lower (c : ascii) : ascii :=
  let n := nat_of_ascii c in
  if (65 <=? n)%nat && (n <=? 70)%nat then ascii_of_nat (n + 32) else c.

(** ** Concrete values *)

Definition example_input : TransactionInput :=
  TransactionInput.new (OutPoint.new (repeat 7 32) 5)
    (Script.new [0xAA; 0xBB; 0xCC]) 0xFFFFFFFF.

Definition example_tx : BitcoinTransaction :=
  BitcoinTransaction.new 2 [example_input; example_input] 300.

(** ** Helper lemmas *)

Lemma length_to_le n v : List.length (to_le n v) = n.
Proof. revert v; induction n; intros v; simpl; auto. Qed.

Lemma from_le_to_le n v : from_le (to_le n v) = v mod 2 ^ (8 * Z.of_nat n).
Proof.
  revert v; induction n as [|n IH]; intros v; simpl to_le; simpl from_le.
  - simpl. now rewrite Z.mod_1_r.
  - rewrite IH.
    replace (8 * Z.of_nat (S n)) with (8 + 8 * Z.of_nat n) by lia.
    rewrite Z.pow_add_r by lia.
    rewrite Z.rem_mul_r by (try apply Z.pow_pos_nonneg; lia).
    reflexivity.
Qed.

Lemma to_le_le_bytes n v : to_le n v = le_bytes n v.
Proof.
  unfold le_bytes. revert v; induction n as [|n IH]; intros v; [reflexivity|].
  simpl to_le. rewrite IH. simpl seq. rewrite <- seq_shift. simpl map. rewrite map_map.
  change (256 ^ Z.of_nat 0) with 1. rewrite Z.div_1_r. f_equal. apply map_ext. intros i.
  rewrite Z.div_div by (try apply Z.pow_pos_nonneg; lia).
  rewrite <- Z.pow_succ_r by lia. now rewrite Nat2Z.inj_succ.
Qed.

Lemma firstn_length_app {A} (l s : list A) : firstn (List.length l) (l ++ s) = l.
Proof. induction l; simpl; f_equal; auto. Qed.

Lemma skipn_length_app {A} (l s : list A) : skipn (List.length l) (l ++ s) = s.
Proof. induction l; simpl; auto. Qed.

Lemma len_app l s : len (l ++ s) = len l + len s.
Proof. unfold len. now rewrite length_app, Nat2Z.inj_add. Qed.

Lemma len_cons x l : len (x :: l) = 1 + len l.
Proof. unfold len. simpl List.length. lia. Qed.

Lemma len_nil : len [] = 0.
Proof. reflexivity. Qed.

Lemma len_nonneg l : 0 <= len l.
Proof. unfold len; lia. Qed.

Lemma len_to_le n v : len (to_le n v) = Z.of_nat n.
Proof. unfold len. now rewrite length_to_le. Qed.

Lemma read_le_app pre l s :
  read_le (pre ++ l ++ s) (len pre) (List.length l) = from_le l.
Proof.
  unfold read_le, len. rewrite Nat2Z.id, skipn_length_app.
  now rewrite firstn_length_app.
Qed.

Lemma fold_app_concat {A} (f : A -> list Z) (l : list A) acc :
  fold_left (fun bytes x => bytes ++ f x) l acc = acc ++ concat (map f l).
Proof.
  revert acc; induction l as [|x l IH]; intros acc; simpl.
  - now rewrite app_nil_r.
  - rewrite IH. now rewrite app_assoc.
Qed.

Ltac len_simpl :=
  repeat (rewrite len_app || rewrite len_cons || rewrite len_to_le || rewrite len_nil);
  cbn [Z.of_nat Pos.of_succ_nat Pos.succ] in *.

Lemma firstn_to_le n w s : firstn n (to_le n w ++ s) = to_le n w.
Proof.
  rewrite <- (length_to_le n w) at 1. apply firstn_length_app.
Qed.

Lemma read_le_tag_to_le tag n w s :
  read_le (tag :: to_le n w ++ s) 1 n = w mod 2 ^ (8 * Z.of_nat n).
Proof.
  unfold read_le. simpl skipn. rewrite firstn_to_le. apply from_le_to_le.
Qed.

Lemma CompactSize_from_bytes_FD rest :
  CompactSize.from_bytes (0xFD :: rest)
  = if len (0xFD :: rest) <? 3 then Err InsufficientBytes
    else Ok (CompactSize.new (read_le (0xFD :: rest) 1 2), 3).
Proof. reflexivity. Qed.

Lemma CompactSize_from_bytes_FE rest :
  CompactSize.from_bytes (0xFE :: rest)
  = if len (0xFE :: rest) <? 5 then Err InsufficientBytes
    else Ok (CompactSize.new (read_le (0xFE :: rest) 1 4), 5).
Proof. reflexivity. Qed.

Lemma CompactSize_from_bytes_FF rest :
  CompactSize.from_bytes (0xFF :: rest)
  = if len (0xFF :: rest) <? 9 then Err InsufficientBytes
    else Ok (CompactSize.new (read_le (0xFF :: rest) 1 8), 9).
Proof. reflexivity. Qed.

Lemma CompactSize_from_bytes_small b rest :
  b < 0xFD -> CompactSize.from_bytes (b :: rest) = Ok (CompactSize.new b, 1).
Proof.
  intros Hb. unfold CompactSize.from_bytes.
  destruct (Z.eqb_spec b 0xFD); [lia|]. destruct (Z.eqb_spec b 0xFE); [lia|].
  destruct (Z.eqb_spec b 0xFF); [lia|]. reflexivity.
Qed.

(** Decoding an encoded CompactSize followed by any suffix. *)
Lemma CompactSize_from_to_bytes v s :
  u64_ok v ->
  CompactSize.from_bytes (CompactSize.to_bytes (CompactSize.new v) ++ s)
  = Ok (CompactSize.new v, len (CompactSize.to_bytes (CompactSize.new v))).
Proof.
  intros [H0 H1]. unfold CompactSize.to_bytes. cbn [value CompactSize.new].
  destruct (v <=? 0xFC) eqn:E1; [|destruct (v <=? 0xFFFF) eqn:E2;
    [|destruct (v <=? 0xFFFFFFFF) eqn:E3]];
  rewrite ?Z.leb_le, ?Z.leb_gt in *; cbn [app];
  rewrite ?CompactSize_from_bytes_FD, ?CompactSize_from_bytes_FE,
    ?CompactSize_from_bytes_FF, ?read_le_tag_to_le;
  len_simpl.
  - rewrite Z.mod_small by lia. apply CompactSize_from_bytes_small; lia.
  - destruct (Z.ltb_spec (1 + (2 + len s)) 3).
    + pose proof (len_nonneg s); lia.
    + rewrite !Z.mod_mod, Z.mod_small by lia. reflexivity.
  - destruct (Z.ltb_spec (1 + (4 + len s)) 5).
    + pose proof (len_nonneg s); lia.
    + rewrite !Z.mod_mod, Z.mod_small by lia. reflexivity.
  - destruct (Z.ltb_spec (1 + (8 + len s)) 9).
    + pose proof (len_nonneg s); lia.
    + rewrite Z.mod_small by lia. reflexivity.
Qed.

Lemma CompactSize_len_to_bytes c : 1 <= len (CompactSize.to_bytes c) <= 9.
Proof.
  unfold CompactSize.to_bytes.
  destruct (value c <=? 0xFC); [|destruct (value c <=? 0xFFFF);
    [|destruct (value c <=? 0xFFFFFFFF)]]; len_simpl; lia.
Qed.

Lemma read_le_app_at pre l s o n :
  len pre = o -> List.length l = n -> read_le (pre ++ l ++ s) o n = from_le l.
Proof. intros <- <-. apply read_le_app. Qed.

Lemma slice_from_app {A} pre s o (k : list Z -> Res A) :
  len pre = o -> slice_from (pre ++ s) o k = k s.
Proof.
  intros <-. unfold slice_from. rewrite len_app.
  destruct (Z.leb_spec (len pre) (len pre + len s)).
  - unfold len at 1. now rewrite Nat2Z.id, skipn_length_app.
  - pose proof (len_nonneg s); lia.
Qed.

Lemma slice_app {A} pre l s a b (k : list Z -> Res A) :
  len pre = a -> a + len l = b -> slice (pre ++ l ++ s) a b k = k l.
Proof.
  intros <- <-. unfold slice. rewrite !len_app.
  pose proof (len_nonneg l); pose proof (len_nonneg s).
  destruct (Z.leb_spec (len pre) (len pre + len l)); [|lia].
  destruct (Z.leb_spec (len pre + len l) (len pre + (len l + len s))); [|lia].
  cbn [andb]. replace (len pre + len l - len pre) with (len l) by lia.
  unfold len at 1 2. rewrite !Nat2Z.id, skipn_length_app.
  now rewrite firstn_length_app.
Qed.

(** Decoding an encoded OutPoint followed by any suffix. *)
Lemma OutPoint_from_to_bytes o s :
  outpoint_ok o ->
  OutPoint.from_bytes (OutPoint.to_bytes o ++ s) = Ok (o, len (OutPoint.to_bytes o)).
Proof.
  destruct o as [[t] vo]; unfold outpoint_ok, u32_ok; cbn [txid txid0 vout].
  intros [Ht Hv]. unfold OutPoint.from_bytes, OutPoint.to_bytes; cbn [txid txid0 vout].
  rewrite <- app_assoc.
  assert (Hl : len t = 32) by (unfold len; rewrite Ht; reflexivity).
  len_simpl. rewrite Hl.
  destruct (Z.ltb_spec (32 + (4 + len s)) 36); [pose proof (len_nonneg s); lia|].
  rewrite (read_le_app_at t (to_le 4 vo) s 32 4) by (auto using length_to_le).
  rewrite from_le_to_le, Z.mod_small by (cbn; lia).
  rewrite <- Ht, firstn_length_app. reflexivity.
Qed.

(** Decoding an encoded Script followed by any suffix. *)
Lemma Script_from_to_bytes overflow_checks sc s :
  script_ok sc ->
  Script.from_bytes overflow_checks (Script.to_bytes sc ++ s)
  = Ok (sc, len (Script.to_bytes sc)).
Proof.
  destruct sc as [pl]; unfold script_ok, vec_len_ok; cbn [bytes]; intros H.
  unfold Script.from_bytes, Script.to_bytes; cbn [bytes].
  change (Z.of_nat (List.length pl)) with (len pl) in *.
  rewrite <- app_assoc, CompactSize_from_to_bytes
    by (unfold u64_ok; pose proof (len_nonneg pl); lia).
  cbn [bind value CompactSize.new]. unfold usize_add.
  set (c := CompactSize.to_bytes _).
  pose proof (CompactSize_len_to_bytes (CompactSize.new (len pl))) as Hc.
  fold c in Hc. pose proof (len_nonneg pl); pose proof (len_nonneg s).
  destruct (Z.ltb_spec (len c + len pl) (2 ^ 64)); [|lia].
  rewrite !len_app.
  destruct (Z.ltb_spec (len c + (len pl + len s)) (len c + len pl)); [lia|].
  rewrite (slice_app c pl s) by reflexivity. reflexivity.
Qed.

(** Decoding an encoded TransactionInput followed by any suffix. *)
Lemma TransactionInput_from_to_bytes overflow_checks i s :
  input_ok i ->
  TransactionInput.from_bytes overflow_checks (TransactionInput.to_bytes i ++ s)
  = Ok (i, len (TransactionInput.to_bytes i)).
Proof.
  destruct i as [op sc sq]; unfold input_ok, u32_ok;
    cbn [previous_output script_sig sequence]; intros (Hop & Hsc & Hsq).
  unfold TransactionInput.from_bytes, TransactionInput.to_bytes;
    cbn [previous_output script_sig sequence].
  rewrite <- !app_assoc, OutPoint_from_to_bytes by exact Hop. cbn [bind].
  rewrite slice_from_app by reflexivity.
  rewrite Script_from_to_bytes by exact Hsc. cbn [bind].
  set (ob := OutPoint.to_bytes op). set (sb := Script.to_bytes sc).
  rewrite !len_app, len_to_le. pose proof (len_nonneg s).
  destruct (Z.ltb_spec (len ob + (len sb + (Z.of_nat 4 + len s))) (len ob + len sb + 4));
    [change (Z.of_nat 4) with 4 in *; lia|].
  rewrite app_assoc, (read_le_app_at (ob ++ sb) (to_le 4 sq) s)
    by (rewrite ?len_app; auto using length_to_le).
  rewrite from_le_to_le, Z.mod_small by (cbn; lia).
  unfold TransactionInput.new. f_equal. f_equal. len_simpl. lia.
Qed.

Lemma read_le_0 l s n : List.length l = n -> read_le (l ++ s) 0 n = from_le l.
Proof. intros <-. unfold read_le. cbn [Z.to_nat skipn]. now rewrite firstn_length_app. Qed.

(** The decoding loop, run over the encodings of [ins] placed after [pre]. *)
Lemma decode_inputs_app overflow_checks ins :
  forall acc pre s,
  Forall input_ok ins ->
  BitcoinTransaction.decode_inputs overflow_checks (List.length ins)
    (pre ++ List.concat (map TransactionInput.to_bytes ins) ++ s) acc (len pre)
  = Ok (acc ++ ins, len pre + len (List.concat (map TransactionInput.to_bytes ins))).
Proof.
  induction ins as [|i ins IH]; intros acc pre s Hok;
    cbn [List.length BitcoinTransaction.decode_inputs map List.concat].
  - rewrite app_nil_r, len_nil, Z.add_0_r. reflexivity.
  - inversion Hok as [|? ? Hi Hins]; subst.
    rewrite <- app_assoc, slice_from_app by reflexivity.
    rewrite TransactionInput_from_to_bytes by exact Hi. cbn [bind].
    rewrite (app_assoc pre (TransactionInput.to_bytes i)), <- len_app.
    rewrite IH by exact Hins. rewrite <- app_assoc. cbn [app].
    f_equal. f_equal. rewrite !len_app. lia.
Qed.

(** Decoding a buffer that holds a version, an input count and the inputs'
    encodings, followed by at least 3 more bytes: everything up to the lock
    time succeeds, and the lock-time read decides the outcome. *)
Lemma BitcoinTransaction_from_bytes_frame overflow_checks ver ins tail :
  u32_ok ver -> vec_len_ok ins -> Forall input_ok ins -> 3 <= len tail ->
  BitcoinTransaction.from_bytes overflow_checks
    ((to_le 4 ver ++ CompactSize.to_bytes (CompactSize.new (Z.of_nat (List.length ins))))
     ++ List.concat (map TransactionInput.to_bytes ins) ++ tail)
  = if len tail <? 4 then Err InsufficientBytes
    else Ok (BitcoinTransaction.new ver ins (from_le (firstn 4 tail)),
             len (to_le 4 ver ++ CompactSize.to_bytes
                    (CompactSize.new (Z.of_nat (List.length ins))))
             + len (List.concat (map TransactionInput.to_bytes ins)) + 4).
Proof.
  unfold u32_ok, vec_len_ok; intros Hv Hn Hins Ht.
  set (c := CompactSize.to_bytes _).
  set (body := List.concat _).
  pose proof (CompactSize_len_to_bytes (CompactSize.new (Z.of_nat (List.length ins)))) as Hc.
  fold c in Hc. pose proof (len_nonneg body).
  unfold BitcoinTransaction.from_bytes.
  rewrite <- !app_assoc. len_simpl.
  destruct (Z.ltb_spec (4 + (len c + (len body + len tail))) 8); [lia|].
  rewrite read_le_0 by apply length_to_le.
  rewrite slice_from_app by (rewrite len_to_le; reflexivity).
  unfold c. rewrite CompactSize_from_to_bytes by (unfold u64_ok; lia).
  fold c. cbn [bind value CompactSize.new].
  rewrite Nat2Z.id, app_assoc.
  replace (len c + 4) with (len (to_le 4 ver ++ c))
    by (rewrite len_app, len_to_le; cbn [Z.of_nat Pos.of_succ_nat Pos.succ]; lia).
  rewrite decode_inputs_app by exact Hins. fold body. cbn [bind app].
  rewrite from_le_to_le, Z.mod_small by (cbn; lia).
  set (pre := to_le 4 ver ++ c).
  assert (Hp : len pre = 4 + len c) by (unfold pre; len_simpl; lia).
  destruct (Z.ltb_spec (4 + (len c + (len body + len tail))) (len pre + len body + 4));
    destruct (Z.ltb_spec (len tail) 4); try lia; [reflexivity|].
  f_equal. f_equal; [|lia]. f_equal.
  unfold read_le. rewrite app_assoc, <- len_app. unfold len.
  rewrite Nat2Z.id, skipn_length_app. reflexivity.
Qed.

(** ** Claims *)

(** C1. Round trip: for every transaction [t] whose fields fit their Rust
    types, decoding [t.to_bytes() ++ s] for any trailing bytes [s] returns
    [t] itself and reports exactly [len (t.to_bytes())] bytes consumed; the
    trailing bytes are not an error. *)
Theorem BitcoinTransaction_from_to_bytes overflow_checks t s :
  tx_ok t ->
  BitcoinTransaction.from_bytes overflow_checks (BitcoinTransaction.to_bytes t ++ s)
  = Ok (t, len (BitcoinTransaction.to_bytes t)).
Proof.
  destruct t as [ver ins lt]. unfold tx_ok. cbn [version inputs lock_time].
  intros (Hv & Hn & Hins & Hl).
  unfold BitcoinTransaction.to_bytes; cbn [version inputs lock_time].
  rewrite fold_app_concat.
  set (pre := to_le 4 ver ++ _). set (body := List.concat _).
  replace (((pre ++ body) ++ to_le 4 lt) ++ s) with (pre ++ body ++ (to_le 4 lt ++ s))
    by (now rewrite !app_assoc).
  unfold pre, body.
  rewrite BitcoinTransaction_from_bytes_frame
    by (auto; len_simpl; pose proof (len_nonneg s); lia).
  len_simpl. pose proof (len_nonneg s).
  destruct (Z.ltb_spec (4 + len s) 4); [lia|].
  rewrite firstn_to_le, from_le_to_le.
  unfold u32_ok in Hl. rewrite Z.mod_small by (cbn; lia).
  reflexivity.
Qed.

(** C3. [CompactSize::to_bytes] emits the minimal-width tagged form: one
    byte for values up to 252; [0xFD] and 2 little-endian bytes up to 65535;
    [0xFE] and 4 little-endian bytes up to 4294967295; [0xFF] and 8
    little-endian bytes otherwise.  The boundary values 252, 253, 65535,
    65536, 4294967295 and 4294967296 get 1, 3, 3, 5, 5 and 9 bytes with the
    tags 0xFD, 0xFE and 0xFF as stated. *)
Theorem CompactSize_to_bytes_minimal v :
  u64_ok v ->
  (v <= 252 -> CompactSize.to_bytes (CompactSize.new v) = [v]) /\
  (253 <= v <= 65535 -> CompactSize.to_bytes (CompactSize.new v) = 0xFD :: le_bytes 2 v) /\
  (65536 <= v <= 4294967295 ->
     CompactSize.to_bytes (CompactSize.new v) = 0xFE :: le_bytes 4 v) /\
  (4294967296 <= v -> CompactSize.to_bytes (CompactSize.new v) = 0xFF :: le_bytes 8 v) /\
  List.length (CompactSize.to_bytes (CompactSize.new 252)) = 1%nat /\
  List.length (CompactSize.to_bytes (CompactSize.new 253)) = 3%nat /\
  hd_error (CompactSize.to_bytes (CompactSize.new 253)) = Some 0xFD /\
  List.length (CompactSize.to_bytes (CompactSize.new 65535)) = 3%nat /\
  hd_error (CompactSize.to_bytes (CompactSize.new 65535)) = Some 0xFD /\
  List.length (CompactSize.to_bytes (CompactSize.new 65536)) = 5%nat /\
  hd_error (CompactSize.to_bytes (CompactSize.new 65536)) = Some 0xFE /\
  List.length (CompactSize.to_bytes (CompactSize.new 4294967295)) = 5%nat /\
  hd_error (CompactSize.to_bytes (CompactSize.new 4294967295)) = Some 0xFE /\
  List.length (CompactSize.to_bytes (CompactSize.new 4294967296)) = 9%nat /\
  hd_error (CompactSize.to_bytes (CompactSize.new 4294967296)) = Some 0xFF.
Proof.
  unfold u64_ok; intros Hv.
  unfold CompactSize.to_bytes; cbn [value CompactSize.new].
  repeat split; try reflexivity; intros Hr.
  - destruct (Z.leb_spec v 0xFC); [|lia]. now rewrite Z.mod_small by lia.
  - destruct (Z.leb_spec v 0xFC); [lia|]. destruct (Z.leb_spec v 0xFFFF); [|lia].
    now rewrite Z.mod_small, to_le_le_bytes by lia.
  - destruct (Z.leb_spec v 0xFC); [lia|]. destruct (Z.leb_spec v 0xFFFF); [lia|].
    destruct (Z.leb_spec v 0xFFFFFFFF); [|lia].
    now rewrite Z.mod_small, to_le_le_bytes by lia.
  - destruct (Z.leb_spec v 0xFC); [lia|]. destruct (Z.leb_spec v 0xFFFF); [lia|].
    destruct (Z.leb_spec v 0xFFFFFFFF); [lia|].
    now rewrite to_le_le_bytes.
Qed.

(** C4. [CompactSize::from_bytes] case by case: the empty buffer fails with
    [InsufficientBytes]; a first byte below 0xFD is the value (1 byte
    consumed); 0xFD, 0xFE and 0xFF need 3, 5 and 9 bytes in all (else
    [InsufficientBytes]) and read the next 2, 4 and 8 bytes little-endian
    (3, 5 and 9 consumed).  A non-minimal form is accepted: [FD 0A 00]
    decodes to 10 with 3 bytes consumed. *)
Theorem CompactSize_from_bytes_cases :
  CompactSize.from_bytes [] = Err InsufficientBytes /\
  (forall b rest, b < 0xFD ->
     CompactSize.from_bytes (b :: rest) = Ok (CompactSize.new b, 1)) /\
  (forall rest, (List.length rest < 2)%nat ->
     CompactSize.from_bytes (0xFD :: rest) = Err InsufficientBytes) /\
  (forall b1 b2 rest,
     CompactSize.from_bytes (0xFD :: b1 :: b2 :: rest)
     = Ok (CompactSize.new (b1 + 256 * b2), 3)) /\
  (forall rest, (List.length rest < 4)%nat ->
     CompactSize.from_bytes (0xFE :: rest) = Err InsufficientBytes) /\
  (forall b1 b2 b3 b4 rest,
     CompactSize.from_bytes (0xFE :: b1 :: b2 :: b3 :: b4 :: rest)
     = Ok (CompactSize.new (b1 + 256 * b2 + 256 ^ 2 * b3 + 256 ^ 3 * b4), 5)) /\
  (forall rest, (List.length rest < 8)%nat ->
     CompactSize.from_bytes (0xFF :: rest) = Err InsufficientBytes) /\
  (forall b1 b2 b3 b4 b5 b6 b7 b8 rest,
     CompactSize.from_bytes (0xFF :: b1 :: b2 :: b3 :: b4 :: b5 :: b6 :: b7 :: b8 :: rest)
     = Ok (CompactSize.new (b1 + 256 * b2 + 256 ^ 2 * b3 + 256 ^ 3 * b4
                            + 256 ^ 4 * b5 + 256 ^ 5 * b6 + 256 ^ 6 * b7
                            + 256 ^ 7 * b8), 9)) /\
  CompactSize.from_bytes [0xFD; 0x0A; 0x00] = Ok (CompactSize.new 10, 3).
Proof.
  repeat split.
  - exact CompactSize_from_bytes_small.
  - intros rest Hr. rewrite CompactSize_from_bytes_FD.
    unfold len; cbn [List.length]. destruct (Z.ltb_spec (Z.of_nat (S (List.length rest))) 3);
      [reflexivity|lia].
  - intros. rewrite CompactSize_from_bytes_FD. len_simpl.
    pose proof (len_nonneg rest). destruct (Z.ltb_spec (1 + (1 + (1 + len rest))) 3); [lia|].
    do 3 f_equal. unfold read_le. change (Z.to_nat 1) with 1%nat. cbn [skipn firstn from_le]. lia.
  - intros rest Hr. rewrite CompactSize_from_bytes_FE.
    unfold len; cbn [List.length]. destruct (Z.ltb_spec (Z.of_nat (S (List.length rest))) 5);
      [reflexivity|lia].
  - intros. rewrite CompactSize_from_bytes_FE. len_simpl.
    pose proof (len_nonneg rest).
    destruct (Z.ltb_spec (1 + (1 + (1 + (1 + (1 + len rest))))) 5); [lia|].
    do 3 f_equal. unfold read_le. change (Z.to_nat 1) with 1%nat. cbn [skipn firstn from_le]. lia.
  - intros rest Hr. rewrite CompactSize_from_bytes_FF.
    unfold len; cbn [List.length]. destruct (Z.ltb_spec (Z.of_nat (S (List.length rest))) 9);
      [reflexivity|lia].
  - intros. rewrite CompactSize_from_bytes_FF. len_simpl.
    pose proof (len_nonneg rest).
    destruct (Z.ltb_spec (1 + (1 + (1 + (1 + (1 + (1 + (1 + (1 + (1 + len rest))))))))) 9);
      [lia|].
    do 3 f_equal. unfold read_le. change (Z.to_nat 1) with 1%nat. cbn [skipn firstn from_le]. lia.
Qed.

Lemma CompactSize_from_bytes_spec bs :
  (exists c o, CompactSize.from_bytes bs = Ok (c, o) /\ 1 <= o <= len bs)
  \/ CompactSize.from_bytes bs = Err InsufficientBytes.
Proof.
  destruct bs as [|b0 rest]; [now right|].
  unfold CompactSize.from_bytes.
  destruct (b0 =? 0xFD); [|destruct (b0 =? 0xFE); [|destruct (b0 =? 0xFF)]];
    try (destruct (Z.ltb_spec (len (b0 :: rest)) 3));
    try (destruct (Z.ltb_spec (len (b0 :: rest)) 5));
    try (destruct (Z.ltb_spec (len (b0 :: rest)) 9));
    try (now right); left; eexists; eexists; split; try reflexivity;
    rewrite ?len_cons in *; pose proof (len_nonneg rest); lia.
Qed.

Lemma OutPoint_from_bytes_short bs :
  len bs < 36 -> OutPoint.from_bytes bs = Err InsufficientBytes.
Proof.
  intros H. unfold OutPoint.from_bytes. destruct (Z.ltb_spec (len bs) 36); [reflexivity|lia].
Qed.

Lemma TransactionInput_from_bytes_short overflow_checks bs :
  len bs < 36 -> TransactionInput.from_bytes overflow_checks bs = Err InsufficientBytes.
Proof.
  intros H. unfold TransactionInput.from_bytes. now rewrite OutPoint_from_bytes_short.
Qed.

Lemma len_skipn n l : len (skipn n l) = Z.max 0 (len l - Z.of_nat n).
Proof. unfold len. rewrite length_skipn. lia. Qed.

(** C6. [BitcoinTransaction::to_bytes] is the version as 4 little-endian
    bytes, then the CompactSize of the input count, then each input's
    encoding in order, then the lock time as 4 little-endian bytes.  The
    transaction (version 1, no inputs, lock time 0) encodes to the 9 bytes
    [01 00 00 00 00 00 00 00 00], which decode back to it with 9 bytes
    consumed. *)
Theorem BitcoinTransaction_to_bytes_layout :
  (forall t,
     BitcoinTransaction.to_bytes t
     = le_bytes 4 (version t)
       ++ CompactSize.to_bytes (CompactSize.new (Z.of_nat (List.length (inputs t))))
       ++ List.concat (map TransactionInput.to_bytes (inputs t))
       ++ le_bytes 4 (lock_time t)) /\
  BitcoinTransaction.to_bytes (BitcoinTransaction.new 1 [] 0) = [1; 0; 0; 0; 0; 0; 0; 0; 0] /\
  (forall overflow_checks,
     BitcoinTransaction.from_bytes overflow_checks [1; 0; 0; 0; 0; 0; 0; 0; 0]
     = Ok (BitcoinTransaction.new 1 [] 0, 9)).
Proof.
  split; [|split; [reflexivity|]].
  - intros t. unfold BitcoinTransaction.to_bytes.
    rewrite fold_app_concat, !to_le_le_bytes, <- !app_assoc. reflexivity.
  - intros []; reflexivity.
Qed.

(** C8. Every binary decoder fails with [InsufficientBytes] on the empty
    buffer, and [BitcoinTransaction::from_bytes] fails with
    [InsufficientBytes] on every buffer shorter than 8 bytes. *)
Theorem decoders_empty_buffer overflow_checks :
  CompactSize.from_bytes [] = Err InsufficientBytes /\
  OutPoint.from_bytes [] = Err InsufficientBytes /\
  Script.from_bytes overflow_checks [] = Err InsufficientBytes /\
  TransactionInput.from_bytes overflow_checks [] = Err InsufficientBytes /\
  BitcoinTransaction.from_bytes overflow_checks [] = Err InsufficientBytes /\
  (forall bs, len bs < 8 ->
     BitcoinTransaction.from_bytes overflow_checks bs = Err InsufficientBytes).
Proof.
  repeat split; try reflexivity.
  intros bs H. unfold BitcoinTransaction.from_bytes.
  destruct (Z.ltb_spec (len bs) 8); [reflexivity|lia].
Qed.

(** C10. Every 8-byte buffer, whatever its contents, makes
    [BitcoinTransaction::from_bytes] fail with [InsufficientBytes]: the
    up-front check passes, but the count, an input or the lock time runs
    out of bytes. *)
Theorem BitcoinTransaction_from_bytes_8_bytes overflow_checks bs :
  List.length bs = 8%nat ->
  BitcoinTransaction.from_bytes overflow_checks bs = Err InsufficientBytes.
Proof.
  intros Hl. assert (Hlen : len bs = 8) by (unfold len; rewrite Hl; reflexivity).
  unfold BitcoinTransaction.from_bytes. rewrite Hlen.
  destruct (Z.ltb_spec 8 8); [lia|].
  unfold slice_from at 1. rewrite Hlen. destruct (Z.leb_spec 4 8); [|lia].
  destruct (CompactSize_from_bytes_spec (skipn (Z.to_nat 4) bs))
    as [(c & o & Hcs & Ho) | Hcs]; rewrite Hcs; cbn [bind]; [|reflexivity].
  rewrite len_skipn, Hlen in Ho. change (Z.of_nat (Z.to_nat 4)) with 4 in Ho.
  destruct (Z.to_nat (value c)) as [|k]; cbn [BitcoinTransaction.decode_inputs bind].
  - destruct (Z.ltb_spec 8 (o + 4 + 4)); [reflexivity|lia].
  - unfold slice_from. rewrite ?Hlen. destruct (Z.leb_spec (o + 4) 8); [|lia].
    rewrite TransactionInput_from_bytes_short; [reflexivity|].
    rewrite len_skipn, Hlen. lia.
Qed.

Lemma firstn_drop_last {A} (X Y : list A) :
  Y <> [] ->
  firstn (List.length (X ++ Y) - 1) (X ++ Y) = X ++ firstn (List.length Y - 1) Y.
Proof.
  intros HY. rewrite firstn_app, length_app.
  assert (1 <= List.length Y)%nat by (destruct Y; [congruence|simpl; lia]).
  rewrite firstn_all2 by lia. do 2 f_equal. lia.
Qed.

Lemma to_le_4_not_nil w : to_le 4 w <> [].
Proof. discriminate. Qed.

Lemma len_firstn_to_le_4 w : len (firstn (List.length (to_le 4 w) - 1) (to_le 4 w)) = 3.
Proof. reflexivity. Qed.

(** C5. Removing the last byte of the encoding of any CompactSize, OutPoint,
    Script, TransactionInput or BitcoinTransaction (fields within their Rust
    types) makes the matching decoder fail with [InsufficientBytes]. *)
Theorem truncated_encoding_rejected overflow_checks :
  (forall v, u64_ok v ->
     CompactSize.from_bytes
       (firstn (List.length (CompactSize.to_bytes (CompactSize.new v)) - 1)
          (CompactSize.to_bytes (CompactSize.new v)))
     = Err InsufficientBytes) /\
  (forall o, outpoint_ok o ->
     OutPoint.from_bytes
       (firstn (List.length (OutPoint.to_bytes o) - 1) (OutPoint.to_bytes o))
     = Err InsufficientBytes) /\
  (forall sc, script_ok sc ->
     Script.from_bytes overflow_checks
       (firstn (List.length (Script.to_bytes sc) - 1) (Script.to_bytes sc))
     = Err InsufficientBytes) /\
  (forall i, input_ok i ->
     TransactionInput.from_bytes overflow_checks
       (firstn (List.length (TransactionInput.to_bytes i) - 1) (TransactionInput.to_bytes i))
     = Err InsufficientBytes) /\
  (forall t, tx_ok t ->
     BitcoinTransaction.from_bytes overflow_checks
       (firstn (List.length (BitcoinTransaction.to_bytes t) - 1)
          (BitcoinTransaction.to_bytes t))
     = Err InsufficientBytes).
Proof.
  split; [|split; [|split; [|split]]].
  - (* CompactSize *)
    intros v _. unfold CompactSize.to_bytes; cbn [value CompactSize.new].
    destruct (v <=? 0xFC); [reflexivity|].
    destruct (v <=? 0xFFFF); [reflexivity|].
    destruct (v <=? 0xFFFFFFFF); reflexivity.
  - (* OutPoint *)
    intros [[t] vo] [Ht _]; cbn [txid txid0] in Ht.
    apply OutPoint_from_bytes_short. unfold OutPoint.to_bytes; cbn [txid txid0 vout].
    unfold len. rewrite length_firstn, length_app, Ht, length_to_le. reflexivity.
  - (* Script *)
    intros [pl] Hpl. unfold script_ok, vec_len_ok in Hpl; cbn [bytes] in Hpl.
    destruct pl as [|p pl']; [reflexivity|].
    unfold Script.to_bytes; cbn [bytes].
    rewrite firstn_drop_last by discriminate.
    set (pl := p :: pl') in *. set (t := firstn _ pl).
    change (Z.of_nat (List.length pl)) with (len pl) in *.
    assert (Ht : len t = len pl - 1).
    { unfold t, len. rewrite length_firstn. cbn [pl List.length]. lia. }
    unfold Script.from_bytes.
    rewrite CompactSize_from_to_bytes by (unfold u64_ok; pose proof (len_nonneg pl); lia).
    cbn [bind value CompactSize.new]. unfold usize_add.
    set (c := CompactSize.to_bytes _).
    pose proof (CompactSize_len_to_bytes (CompactSize.new (len pl))) as Hc. fold c in Hc.
    destruct (Z.ltb_spec (len c + len pl) (2 ^ 64)); [|lia].
    rewrite len_app, Ht.
    destruct (Z.ltb_spec (len c + (len pl - 1)) (len c + len pl)); [reflexivity|lia].
  - (* TransactionInput *)
    intros [op sc sq] (Hop & Hsc & Hsq); cbn [previous_output script_sig sequence] in *.
    unfold TransactionInput.to_bytes; cbn [previous_output script_sig sequence].
    rewrite app_assoc, firstn_drop_last by apply to_le_4_not_nil.
    set (t := firstn _ (to_le 4 sq)).
    assert (Ht : len t = 3) by apply len_firstn_to_le_4.
    rewrite <- app_assoc. unfold TransactionInput.from_bytes.
    rewrite OutPoint_from_to_bytes by exact Hop. cbn [bind].
    rewrite slice_from_app by reflexivity.
    rewrite Script_from_to_bytes by exact Hsc. cbn [bind].
    rewrite !len_app, Ht.
    destruct (Z.ltb_spec (len (OutPoint.to_bytes op) + (len (Script.to_bytes sc) + 3))
                (len (OutPoint.to_bytes op) + len (Script.to_bytes sc) + 4));
      [reflexivity|lia].
  - (* BitcoinTransaction *)
    intros [ver ins lt] (Hv & Hn & Hins & Hl); cbn [version inputs lock_time] in *.
    unfold BitcoinTransaction.to_bytes; cbn [version inputs lock_time].
    rewrite fold_app_concat, firstn_drop_last by apply to_le_4_not_nil.
    set (t := firstn _ (to_le 4 lt)).
    assert (Ht : len t = 3) by apply len_firstn_to_le_4.
    rewrite <- app_assoc, BitcoinTransaction_from_bytes_frame by (auto; lia).
    rewrite Ht. reflexivity.
Qed.

(** ** Which errors the binary decoders can return *)

Lemma bind_not_invalid {A B} (m : Res A) (k : A -> Res B) :
  m <> Err InvalidFormat -> (forall a, k a <> Err InvalidFormat) ->
  bind m k <> Err InvalidFormat.
Proof.
  intros Hm Hk; destruct m; cbn; [apply Hk | |discriminate].
  intros He. apply Hm. injection He as ->. reflexivity.
Qed.

Lemma slice_from_not_invalid {A} bytes a (k : list Z -> Res A) :
  (forall r, k r <> Err InvalidFormat) -> slice_from bytes a k <> Err InvalidFormat.
Proof. intros Hk. unfold slice_from. destruct (_ <=? _); [apply Hk | discriminate]. Qed.

Lemma slice_not_invalid {A} bytes a b (k : list Z -> Res A) :
  (forall r, k r <> Err InvalidFormat) -> slice bytes a b k <> Err InvalidFormat.
Proof. intros Hk. unfold slice. destruct (_ && _); [apply Hk | discriminate]. Qed.

Lemma usize_add_not_invalid {A} oc a b (k : Z -> Res A) :
  (forall r, k r <> Err InvalidFormat) -> usize_add oc a b k <> Err InvalidFormat.
Proof.
  intros Hk. unfold usize_add.
  destruct (_ <? _); [apply Hk|destruct oc; [discriminate|apply Hk]].
Qed.

Ltac not_invalid :=
  repeat match goal with
  | |- bind _ _ <> _ => apply bind_not_invalid; [|intros [? ?]]
  | |- slice_from _ _ _ <> _ => apply slice_from_not_invalid; intros ?
  | |- slice _ _ _ _ <> _ => apply slice_not_invalid; intros ?
  | |- usize_add _ _ _ _ <> _ => apply usize_add_not_invalid; intros ?
  | |- (if ?b then _ else _) <> _ => destruct b
  | |- match ?l with [] => _ | _ :: _ => _ end <> _ => destruct l
  | |- Ok _ <> _ => discriminate
  | |- Err InsufficientBytes <> _ => discriminate
  | |- Panic <> _ => discriminate
  end.

Lemma CompactSize_not_invalid bs : CompactSize.from_bytes bs <> Err InvalidFormat.
Proof. unfold CompactSize.from_bytes. not_invalid. Qed.

Lemma OutPoint_not_invalid bs : OutPoint.from_bytes bs <> Err InvalidFormat.
Proof. unfold OutPoint.from_bytes. not_invalid. Qed.

Lemma Script_not_invalid oc bs : Script.from_bytes oc bs <> Err InvalidFormat.
Proof. unfold Script.from_bytes. not_invalid. apply CompactSize_not_invalid. Qed.

Lemma TransactionInput_not_invalid oc bs :
  TransactionInput.from_bytes oc bs <> Err InvalidFormat.
Proof.
  unfold TransactionInput.from_bytes. not_invalid.
  - apply OutPoint_not_invalid.
  - apply Script_not_invalid.
Qed.

Lemma decode_inputs_not_invalid oc k bs acc offset :
  BitcoinTransaction.decode_inputs oc k bs acc offset <> Err InvalidFormat.
Proof.
  revert acc offset; induction k as [|k IH]; intros acc offset; cbn; [discriminate|].
  not_invalid; [apply TransactionInput_not_invalid | apply IH].
Qed.

Lemma BitcoinTransaction_not_invalid oc bs :
  BitcoinTransaction.from_bytes oc bs <> Err InvalidFormat.
Proof.
  unfold BitcoinTransaction.from_bytes. not_invalid.
  - apply CompactSize_not_invalid.
  - apply decode_inputs_not_invalid.
Qed.

Lemma not_invalid_format {A} (r : Res A) :
  r <> Err InvalidFormat -> is_invalid_format r = false.
Proof. destruct r as [|[]|]; cbn; auto. intros H; now contradiction H. Qed.

(** C2 (defect).  With the length prefix [FF FF FF FF FF FF FF FF FF]
    (L = 2^64 - 1, S = 9) and no payload, [Script::from_bytes] panics
    instead of returning [InsufficientBytes]: [size_bytes + script_len]
    overflows [usize].  A debug build panics on the addition; a release
    build wraps it to 8, passes the length check and panics on the slice
    [bytes[9..8]]. *)
Theorem Script_from_bytes_overflow_panics :
  Script.from_bytes true (repeat 0xFF 9) = Panic /\
  Script.from_bytes false (repeat 0xFF 9) = Panic.
Proof. split; reflexivity. Qed.

(** C9 (defect).  No binary decoder ever returns [InvalidFormat], but not
    every buffer gives success or [InsufficientBytes]: the overflow of
    [Script::from_bytes] (see C2) makes [TransactionInput::from_bytes] and
    [BitcoinTransaction::from_bytes] panic on buffers that embed a script
    length prefix of 2^64 - 1. *)
Theorem decoders_error_kinds :
  (forall oc bs,
     is_invalid_format (CompactSize.from_bytes bs) = false /\
     is_invalid_format (OutPoint.from_bytes bs) = false /\
     is_invalid_format (Script.from_bytes oc bs) = false /\
     is_invalid_format (TransactionInput.from_bytes oc bs) = false /\
     is_invalid_format (BitcoinTransaction.from_bytes oc bs) = false) /\
  (forall oc,
     TransactionInput.from_bytes oc (repeat 0 36 ++ repeat 0xFF 9) = Panic /\
     BitcoinTransaction.from_bytes oc ([1; 0; 0; 0; 1] ++ repeat 0 36 ++ repeat 0xFF 9)
     = Panic).
Proof.
  split.
  - intros oc bs. repeat split; apply not_invalid_format.
    + apply CompactSize_not_invalid.
    + apply OutPoint_not_invalid.
    + apply Script_not_invalid.
    + apply TransactionInput_not_invalid.
    + apply BitcoinTransaction_not_invalid.
  - intros []; split; reflexivity.
Qed.

(** ** The hex text form *)

Lemma hex_byte_table :
  forallb (fun n =>
    let b := Z.of_nat n in
    Nat.ltb (Z.to_nat (Z.shiftr b 4)) 16 && Nat.ltb (Z.to_nat (Z.land b 15)) 16 &&
    match hex.val (nth (Z.to_nat (Z.shiftr b 4)) hex.HEX_CHARS_LOWER "0"%char) 0,
          hex.val (nth (Z.to_nat (Z.land b 15)) hex.HEX_CHARS_LOWER "0"%char) 0 with
    | ROk h, ROk l => Z.eqb (Z.lor (Z.shiftl h 4) l) b
    | _, _ => false
    end) (seq 0 256) = true.
Proof. vm_compute. reflexivity. Qed.

Lemma hex_byte b :
  0 <= b < 256 ->
  (Z.to_nat (Z.shiftr b 4) < 16)%nat /\ (Z.to_nat (Z.land b 15) < 16)%nat /\
  exists h l,
    hex.val (nth (Z.to_nat (Z.shiftr b 4)) hex.HEX_CHARS_LOWER "0"%char) 0 = ROk h /\
    hex.val (nth (Z.to_nat (Z.land b 15)) hex.HEX_CHARS_LOWER "0"%char) 0 = ROk l /\
    Z.lor (Z.shiftl h 4) l = b.
Proof.
  intros Hb.
  assert (Hin : In (Z.to_nat b) (seq 0 256)) by (apply in_seq; lia).
  pose proof (proj1 (forallb_forall _ _) hex_byte_table _ Hin) as H.
  cbv beta zeta in H. rewrite Z2Nat.id in H by lia.
  apply andb_prop in H as [H H3]. apply andb_prop in H as [H1 H2].
  apply Nat.ltb_lt in H1, H2. split; [exact H1|split; [exact H2|]].
  destruct (hex.val _ 0) as [h|]; [|discriminate].
  destruct (hex.val _ 0) as [l|]; [|discriminate].
  apply Z.eqb_eq in H3. eauto.
Qed.

Lemma val_ok_idx c j i x : hex.val c j = ROk x -> hex.val c i = ROk x.
Proof.
  unfold hex.val.
  destruct (_ && _); [auto|]. destruct (_ && _); [auto|]. destruct (_ && _); [auto|].
  discriminate.
Qed.

Lemma list_ascii_of_string_String a s :
  list_ascii_of_string (String a s) = a :: list_ascii_of_string s.
Proof. reflexivity. Qed.

Lemma length_list_ascii_of_string s :
  List.length (list_ascii_of_string s) = String.length s.
Proof. induction s; simpl; auto. Qed.

Lemma decode_chunks_encode data i :
  Forall (fun b => 0 <= b < 256) data ->
  hex.decode_chunks (list_ascii_of_string (hex.encode_bytes data)) i = ROk data.
Proof.
  revert i; induction data as [|b data IH]; intros i Hd; [reflexivity|].
  inversion Hd as [|? ? Hb Hdata]; subst.
  destruct (hex_byte b Hb) as (_ & _ & h & l & Hh & Hl & Hhl).
  cbn [hex.encode_bytes]. rewrite !list_ascii_of_string_String. cbn [hex.decode_chunks].
  rewrite (val_ok_idx _ _ _ _ Hh), (val_ok_idx _ _ _ _ Hl), IH by exact Hdata.
  now rewrite Hhl.
Qed.

Lemma length_encode_bytes data :
  List.length (list_ascii_of_string (hex.encode_bytes data)) = (2 * List.length data)%nat.
Proof.
  induction data as [|b data IH]; [reflexivity|].
  cbn [hex.encode_bytes]. rewrite !list_ascii_of_string_String. cbn [List.length].
  rewrite IH. lia.
Qed.

Lemma encode_bytes_lower data :
  Forall (fun b => 0 <= b < 256) data ->
  Forall (fun c => In c hex.HEX_CHARS_LOWER) (list_ascii_of_string (hex.encode_bytes data)).
Proof.
  induction data as [|b data IH]; intros Hd; [constructor|].
  inversion Hd as [|? ? Hb Hdata]; subst.
  destruct (hex_byte b Hb) as (H1 & H2 & _).
  cbn [hex.encode_bytes]. rewrite !list_ascii_of_string_String.
  constructor; [apply nth_In; exact H1|].
  constructor; [apply nth_In; exact H2|].
  auto.
Qed.

Lemma odd_mod2 k : Nat.modulo (2 * k + 1) 2 = 1%nat.
Proof. replace (2 * k + 1)%nat with (1 + k * 2)%nat by lia. now rewrite Nat.Div0.mod_add. Qed.

Lemma even_mod2 k : Nat.modulo (2 * k) 2 = 0%nat.
Proof. replace (2 * k)%nat with (0 + k * 2)%nat by lia. now rewrite Nat.Div0.mod_add. Qed.

(** A successful [decode_chunks] read two characters per byte, each a hex
    digit (one unpaired character may be left over). *)
Lemma decode_chunks_ok :
  forall cs i bs,
  hex.decode_chunks cs i = ROk bs ->
  (List.length cs = 2 * List.length bs \/ List.length cs = 2 * List.length bs + 1)%nat /\
  (forall c, In c (firstn (2 * List.length bs) cs) -> exists x, hex.val c 0 = ROk x).
Proof.
  fix IH 1. intros [|c0 [|c1 rest]] i bs H; cbn [hex.decode_chunks] in H.
  - injection H as <-. split; [left; reflexivity | intros c []].
  - injection H as <-. split; [right; reflexivity | intros c []].
  - destruct (hex.val c0 (2 * i)) as [h|] eqn:E0; [|discriminate].
    destruct (hex.val c1 (2 * i + 1)) as [l|] eqn:E1; [|discriminate].
    destruct (hex.decode_chunks rest (i + 1)) as [bs'|] eqn:E; [|discriminate].
    injection H as <-. destruct (IH rest (i + 1) bs' E) as [Hlen Hall].
    split; [cbn [List.length]; lia|].
    intros c Hc. cbn [List.length] in Hc.
    replace (2 * S (List.length bs'))%nat with (S (S (2 * List.length bs'))) in Hc by lia.
    cbn [firstn In] in Hc. destruct Hc as [<-|[<-|Hc]].
    + exists h. eapply val_ok_idx; exact E0.
    + exists l. eapply val_ok_idx; exact E1.
    + auto.
Qed.

Lemma hex_char_table :
  forallb (fun n =>
    existsb (Ascii.eqb (ascii_of_nat n)) (list_ascii_of_string "0123456789abcdefABCDEF")
    || match hex.val (ascii_of_nat n) 0 with RErr _ => true | ROk _ => false end)
    (seq 0 256) = true.
Proof. vm_compute. reflexivity. Qed.

Lemma non_hex_val c x :
  ~ In c (list_ascii_of_string "0123456789abcdefABCDEF") -> hex.val c 0 <> ROk x.
Proof.
  intros Hc Hx.
  assert (Hin : In (nat_of_ascii c) (seq 0 256))
    by (apply in_seq; pose proof (nat_ascii_bounded c); lia).
  pose proof (proj1 (forallb_forall _ _) hex_char_table _ Hin) as H. cbv beta in H.
  rewrite ascii_nat_embedding, Hx, orb_false_r in H.
  apply existsb_exists in H as (c' & Hc' & Heq). apply Ascii.eqb_eq in Heq. subst.
  contradiction.
Qed.

(** C7. The text form of a [Txid] is 64 lowercase hex digits and reads back
    as the same 32 bytes; a string of any length other than 64, or with a
    character that is not a hex digit, is rejected with a (custom serde)
    format error. *)
Theorem Txid_text_form :
  (forall t, List.length (txid0 t) = 32%nat -> Forall (fun b => 0 <= b < 256) (txid0 t) ->
     String.length (Txid.serialize t) = 64%nat /\
     Forall (fun c => In c hex.HEX_CHARS_LOWER) (list_ascii_of_string (Txid.serialize t)) /\
     Txid.deserialize (Txid.serialize t) = ROk t) /\
  (forall s, String.length s <> 64%nat -> exists e, Txid.deserialize s = RErr e) /\
  (forall s c, In c (list_ascii_of_string s) ->
     ~ In c (list_ascii_of_string "0123456789abcdefABCDEF") ->
     exists e, Txid.deserialize s = RErr e).
Proof.
  split; [|split].
  - intros [t] Hl Hb; cbn [txid0] in *. unfold Txid.serialize, hex.encode; cbn [txid0].
    rewrite <- length_list_ascii_of_string, length_encode_bytes, Hl.
    split; [reflexivity|split; [apply encode_bytes_lower; exact Hb|]].
    unfold Txid.deserialize, hex.decode. rewrite length_encode_bytes, Hl, even_mod2.
    cbn [Nat.eqb negb]. rewrite decode_chunks_encode by exact Hb.
    rewrite Hl. reflexivity.
  - intros s Hs. unfold Txid.deserialize, hex.decode.
    rewrite <- length_list_ascii_of_string in Hs.
    set (cs := list_ascii_of_string s) in *.
    destruct (Nat.eqb_spec (Nat.modulo (List.length cs) 2) 0) as [Hev|];
      cbn [negb]; [|eexists; reflexivity].
    destruct (hex.decode_chunks cs 0) as [bs|] eqn:E; [|eexists; reflexivity].
    destruct (decode_chunks_ok _ _ _ E) as [Hlen _].
    destruct (Nat.eqb_spec (List.length bs) 32); [|eexists; reflexivity].
    exfalso. destruct Hlen as [Hlen|Hlen].
    + lia.
    + rewrite Hlen, odd_mod2 in Hev. discriminate.
  - intros s c Hin Hnh. unfold Txid.deserialize, hex.decode.
    set (cs := list_ascii_of_string s) in *.
    destruct (Nat.eqb_spec (Nat.modulo (List.length cs) 2) 0) as [Hev|];
      cbn [negb]; [|eexists; reflexivity].
    destruct (hex.decode_chunks cs 0) as [bs|] eqn:E; [|eexists; reflexivity].
    exfalso. destruct (decode_chunks_ok _ _ _ E) as [Hlen Hall].
    destruct Hlen as [Hlen|Hlen].
    + rewrite firstn_all2 in Hall by lia.
      destruct (Hall c Hin) as [x Hx]. exact (non_hex_val c x Hnh Hx).
    + rewrite Hlen, odd_mod2 in Hev. discriminate.
Qed.

(** ** Witnesses: the claims' hypotheses hold at concrete inputs *)

Ltac wf_concrete :=
  unfold tx_ok, input_ok, outpoint_ok, script_ok, vec_len_ok, u32_ok, u64_ok;
  cbn; repeat (constructor || split); cbn; lia.

Lemma example_tx_ok : tx_ok example_tx.
Proof. wf_concrete. Qed.

Lemma example_input_ok : input_ok example_input.
Proof. wf_concrete. Qed.

Lemma BitcoinTransaction_from_to_bytes_witness :
  tx_ok example_tx /\
  BitcoinTransaction.from_bytes true (BitcoinTransaction.to_bytes example_tx ++ [1; 2])
  = Ok (example_tx, len (BitcoinTransaction.to_bytes example_tx)).
Proof.
  split; [exact example_tx_ok|].
  apply (BitcoinTransaction_from_to_bytes true example_tx [1; 2]). exact example_tx_ok.
Defined.

Lemma CompactSize_to_bytes_minimal_witness :
  u64_ok 300 /\
  (300 <= 252 -> CompactSize.to_bytes (CompactSize.new 300) = [300]) /\
  (253 <= 300 <= 65535 ->
     CompactSize.to_bytes (CompactSize.new 300) = 0xFD :: le_bytes 2 300) /\
  (65536 <= 300 <= 4294967295 ->
     CompactSize.to_bytes (CompactSize.new 300) = 0xFE :: le_bytes 4 300) /\
  (4294967296 <= 300 ->
     CompactSize.to_bytes (CompactSize.new 300) = 0xFF :: le_bytes 8 300).
Proof.
  assert (H : u64_ok 300) by (unfold u64_ok; lia).
  split; [exact H|].
  destruct (CompactSize_to_bytes_minimal 300 H) as (H1 & H2 & H3 & H4 & _).
  split; [exact H1|split; [exact H2|split; [exact H3|exact H4]]].
Defined.

Lemma CompactSize_from_bytes_cases_witness :
  CompactSize.from_bytes (0x0A :: [0xFF]) = Ok (CompactSize.new 0x0A, 1) /\
  CompactSize.from_bytes (0xFD :: [0x01]) = Err InsufficientBytes /\
  CompactSize.from_bytes (0xFE :: [1; 2; 3]) = Err InsufficientBytes /\
  CompactSize.from_bytes (0xFF :: [1; 2; 3; 4; 5; 6; 7]) = Err InsufficientBytes.
Proof.
  destruct CompactSize_from_bytes_cases as (_ & Hs & Hfd & _ & Hfe & _ & Hff & _).
  split; [apply Hs; lia|].
  split; [apply Hfd; cbn; lia|].
  split; [apply Hfe; cbn; lia|].
  apply Hff; cbn; lia.
Defined.

Lemma truncated_encoding_rejected_witness :
  let E1 := CompactSize.to_bytes (CompactSize.new 300) in
  let E2 := OutPoint.to_bytes (previous_output example_input) in
  let E3 := Script.to_bytes (script_sig example_input) in
  let E4 := TransactionInput.to_bytes example_input in
  let E5 := BitcoinTransaction.to_bytes example_tx in
  CompactSize.from_bytes (firstn (List.length E1 - 1) E1) = Err InsufficientBytes /\
  OutPoint.from_bytes (firstn (List.length E2 - 1) E2) = Err InsufficientBytes /\
  Script.from_bytes true (firstn (List.length E3 - 1) E3) = Err InsufficientBytes /\
  TransactionInput.from_bytes true (firstn (List.length E4 - 1) E4) = Err InsufficientBytes /\
  BitcoinTransaction.from_bytes true (firstn (List.length E5 - 1) E5) = Err InsufficientBytes.
Proof.
  destruct (truncated_encoding_rejected true) as (H1 & H2 & H3 & H4 & H5).
  destruct example_input_ok as (Hop & Hsc & _).
  split; [apply H1; unfold u64_ok; lia|].
  split; [apply H2; exact Hop|].
  split; [apply H3; exact Hsc|].
  split; [apply H4; exact example_input_ok|].
  apply H5; exact example_tx_ok.
Defined.

Lemma Txid_text_form_witness :
  Txid.deserialize (Txid.serialize (Txid_new (repeat 7 32))) = ROk (Txid_new (repeat 7 32)) /\
  (exists e, Txid.deserialize "0a0b" = RErr e) /\
  (exists e, Txid.deserialize
     "zz00000000000000000000000000000000000000000000000000000000000000" = RErr e).
Proof.
  destruct Txid_text_form as (H1 & H2 & H3).
  split; [apply H1; [reflexivity | repeat constructor; lia]|].
  split; [apply H2; cbn; lia|].
  apply (H3 _ "z"%char); [cbn; auto|].
  cbn. intuition discriminate.
Defined.

Lemma decoders_empty_buffer_witness :
  len [1; 2; 3] < 8 /\ BitcoinTransaction.from_bytes true [1; 2; 3] = Err InsufficientBytes.
Proof.
  assert (H : len [1; 2; 3] < 8) by (cbn; lia).
  split; [exact H|]. destruct (decoders_empty_buffer true) as (_ & _ & _ & _ & _ & H6).
  exact (H6 _ H).
Defined.

Lemma BitcoinTransaction_from_bytes_8_bytes_witness :
  List.length [1; 0; 0; 0; 0xFD; 0xFF; 0xFF; 0] = 8%nat /\
  BitcoinTransaction.from_bytes false [1; 0; 0; 0; 0xFD; 0xFF; 0xFF; 0] = Err InsufficientBytes.
Proof.
  split; [reflexivity|]. apply BitcoinTransaction_from_bytes_8_bytes. reflexivity.
Defined.

(** ** Further properties of the codec *)

Lemma firstn_skipn_app_r (bs s : list Z) o k :
  (o + k <= List.length bs)%nat -> firstn k (skipn o (bs ++ s)) = firstn k (skipn o bs).
Proof.
  intros H. rewrite skipn_app, firstn_app, length_skipn.
  replace (k - (List.length bs - o))%nat with 0%nat by lia.
  cbn [firstn]. apply app_nil_r.
Qed.

Lemma read_le_app_r bs s o k :
  0 <= o -> o + Z.of_nat k <= len bs -> read_le (bs ++ s) o k = read_le bs o k.
Proof.
  unfold read_le, len. intros H0 H1. rewrite firstn_skipn_app_r by lia. reflexivity.
Qed.

Lemma slice_app_r {A} bs s a b (k : list Z -> Res A) :
  0 <= a -> b <= len bs -> slice (bs ++ s) a b k = slice bs a b k.
Proof.
  intros Ha Hb. unfold slice. rewrite len_app. pose proof (len_nonneg s).
  destruct (Z.leb_spec a b); [|reflexivity]. cbn [andb].
  destruct (Z.leb_spec b (len bs)); [|lia].
  destruct (Z.leb_spec b (len bs + len s)); [|lia].
  unfold len in *. rewrite firstn_skipn_app_r by lia. reflexivity.
Qed.

Lemma slice_from_app_r {A} bs s a (k : list Z -> Res A) :
  a <= len bs -> slice_from (bs ++ s) a k = k (skipn (Z.to_nat a) bs ++ s).
Proof.
  intros Hb. unfold slice_from. rewrite len_app. pose proof (len_nonneg s).
  destruct (Z.leb_spec a (len bs + len s)); [|lia].
  rewrite skipn_app. unfold len in Hb.
  replace (Z.to_nat a - List.length bs)%nat with 0%nat by lia. reflexivity.
Qed.

Lemma CompactSize_from_bytes_cons b0 r :
  CompactSize.from_bytes (b0 :: r)
  = if b0 =? 0xFD then
      if len (b0 :: r) <? 3 then Err InsufficientBytes
      else Ok (CompactSize.new (read_le (b0 :: r) 1 2), 3)
    else if b0 =? 0xFE then
      if len (b0 :: r) <? 5 then Err InsufficientBytes
      else Ok (CompactSize.new (read_le (b0 :: r) 1 4), 5)
    else if b0 =? 0xFF then
      if len (b0 :: r) <? 9 then Err InsufficientBytes
      else Ok (CompactSize.new (read_le (b0 :: r) 1 8), 9)
    else Ok (CompactSize.new b0, 1).
Proof. reflexivity. Qed.

Lemma CompactSize_from_bytes_app bs s c n :
  CompactSize.from_bytes bs = Ok (c, n) -> CompactSize.from_bytes (bs ++ s) = Ok (c, n).
Proof.
  destruct bs as [|b0 r]; [discriminate|].
  cbn [app]. rewrite !CompactSize_from_bytes_cons, app_comm_cons.
  rewrite len_app. pose proof (len_nonneg s).
  assert (Hl : len (b0 :: r) = Z.of_nat (S (List.length r))) by reflexivity.
  destruct (b0 =? 0xFD); [|destruct (b0 =? 0xFE); [|destruct (b0 =? 0xFF)]].
  - destruct (Z.ltb_spec (len (b0 :: r)) 3); [discriminate|].
    destruct (Z.ltb_spec (len (b0 :: r) + len s) 3); [lia|].
    rewrite read_le_app_r by lia. exact (fun H => H).
  - destruct (Z.ltb_spec (len (b0 :: r)) 5); [discriminate|].
    destruct (Z.ltb_spec (len (b0 :: r) + len s) 5); [lia|].
    rewrite read_le_app_r by lia. exact (fun H => H).
  - destruct (Z.ltb_spec (len (b0 :: r)) 9); [discriminate|].
    destruct (Z.ltb_spec (len (b0 :: r) + len s) 9); [lia|].
    rewrite read_le_app_r by lia. exact (fun H => H).
  - exact (fun H => H).
Qed.

Lemma OutPoint_from_bytes_app bs s o n :
  OutPoint.from_bytes bs = Ok (o, n) -> OutPoint.from_bytes (bs ++ s) = Ok (o, n).
Proof.
  unfold OutPoint.from_bytes. rewrite len_app. pose proof (len_nonneg s).
  destruct (Z.ltb_spec (len bs) 36); [discriminate|].
  destruct (Z.ltb_spec (len bs + len s) 36); [lia|].
  rewrite read_le_app_r by lia.
  rewrite firstn_app. unfold len in *.
  replace (32 - List.length bs)%nat with 0%nat by lia.
  rewrite app_nil_r. exact (fun H => H).
Qed.

Lemma from_le_range l :
  bytes_ok l -> 0 <= from_le l < 2 ^ (8 * Z.of_nat (List.length l)).
Proof.
  induction 1 as [|b l Hb _ IH]; cbn [from_le List.length]; [lia|].
  rewrite Nat2Z.inj_succ, Z.mul_succ_r, Z.pow_add_r by lia.
  change (2 ^ 8) with 256. nia.
Qed.

Lemma bytes_ok_firstn n l : bytes_ok l -> bytes_ok (firstn n l).
Proof.
  unfold bytes_ok. revert l. induction n as [|n IH]; intros l H; [constructor|].
  destruct H; cbn [firstn]; constructor; auto.
Qed.

Lemma bytes_ok_skipn n l : bytes_ok l -> bytes_ok (skipn n l).
Proof.
  unfold bytes_ok. revert l. induction n as [|n IH]; intros l H; [exact H|].
  destruct H; cbn [skipn]; [constructor|auto].
Qed.

Lemma read_le_range bs o k :
  bytes_ok bs -> 0 <= read_le bs o k < 2 ^ (8 * Z.of_nat k).
Proof.
  intros H. unfold read_le.
  pose proof (from_le_range _ (bytes_ok_firstn k _ (bytes_ok_skipn (Z.to_nat o) _ H))) as R.
  rewrite length_firstn in R. split; [lia|].
  eapply Z.lt_le_trans; [apply R|]. apply Z.pow_le_mono_r; lia.
Qed.

Lemma CompactSize_from_bytes_widths bs c n :
  CompactSize.from_bytes bs = Ok (c, n) -> n = 1 \/ n = 3 \/ n = 5 \/ n = 9.
Proof.
  destruct bs as [|b0 r]; [discriminate|]. rewrite CompactSize_from_bytes_cons.
  destruct (b0 =? 0xFD); [|destruct (b0 =? 0xFE); [|destruct (b0 =? 0xFF)]];
    try destruct (len (b0 :: r) <? 3); try destruct (len (b0 :: r) <? 5);
    try destruct (len (b0 :: r) <? 9); intros E; inversion E; lia.
Qed.

(** A CompactSize decoded from real bytes is an unsigned 64-bit value, and
    each prefix bounds it by its width. *)
Lemma CompactSize_from_bytes_value_range bs c n :
  bytes_ok bs -> CompactSize.from_bytes bs = Ok (c, n) ->
  0 <= value c < 2 ^ 64 /\ (n = 1 -> value c < 0xFD)
  /\ (n = 3 -> value c < 2 ^ 16) /\ (n = 5 -> value c < 2 ^ 32).
Proof.
  intros Hok. destruct bs as [|b0 r]; [discriminate|].
  pose proof (read_le_range (b0 :: r) 1 2 Hok) as R2.
  pose proof (read_le_range (b0 :: r) 1 4 Hok) as R4.
  pose proof (read_le_range (b0 :: r) 1 8 Hok) as R8.
  cbn [Z.of_nat Pos.of_succ_nat Pos.succ Z.mul] in R2, R4, R8.
  inversion Hok as [|? ? Hb _]; subst.
  rewrite CompactSize_from_bytes_cons.
  destruct (Z.eqb_spec b0 0xFD); [|destruct (Z.eqb_spec b0 0xFE); [|destruct (Z.eqb_spec b0 0xFF)]].
  - destruct (len (b0 :: r) <? 3); [discriminate|].
    intros E; inversion E; subst; cbn [value CompactSize.new]. repeat split; lia.
  - destruct (len (b0 :: r) <? 5); [discriminate|].
    intros E; inversion E; subst; cbn [value CompactSize.new]. repeat split; lia.
  - destruct (len (b0 :: r) <? 9); [discriminate|].
    intros E; inversion E; subst; cbn [value CompactSize.new]. repeat split; lia.
  - intros E; inversion E; subst; cbn [value CompactSize.new]. repeat split; lia.
Qed.

(** Under [bytes_ok], [Script::from_bytes] succeeds exactly when the length
    prefix decodes, the end offset does not overflow and fits the buffer;
    the payload is then the [script_len] bytes after the prefix. *)
Lemma Script_from_bytes_Ok_iff oc bs sc n :
  bytes_ok bs ->
  Script.from_bytes oc bs = Ok (sc, n) <->
  exists c sb, CompactSize.from_bytes bs = Ok (c, sb)
    /\ n = sb + value c /\ n < 2 ^ 64 /\ n <= len bs
    /\ bytes sc = firstn (Z.to_nat (value c)) (skipn (Z.to_nat sb) bs).
Proof.
  intros Hok. unfold Script.from_bytes.
  destruct (CompactSize.from_bytes bs) as [[c sb]| |] eqn:E; cbn [bind];
    [|split; [discriminate|intros (? & ? & H & _); discriminate]..].
  pose proof (CompactSize_from_bytes_spec bs) as Sp. rewrite E in Sp.
  destruct Sp as [(c0 & sb0 & Eq & Hsb) | ?]; [|discriminate].
  injection Eq as Ec Eo; subst c0 sb0.
  pose proof (CompactSize_from_bytes_value_range _ _ _ Hok E) as (Rv & _).
  pose proof (CompactSize_from_bytes_widths _ _ _ E) as Hw.
  unfold usize_add.
  destruct (Z.ltb_spec (sb + value c) (2 ^ 64)).
  - destruct (Z.ltb_spec (len bs) (sb + value c)).
    + split; [discriminate|]. intros (c' & sb' & E' & -> & _ & Hn & _).
       inversion E'; subst. lia.
    + unfold slice.
      destruct (Z.leb_spec sb (sb + value c)); [|lia].
      destruct (Z.leb_spec (sb + value c) (len bs)); [|lia]. cbn [andb].
      replace (sb + value c - sb) with (value c) by lia.
      split.
      * intros F; inversion F; subst. exists c, sb. repeat split; lia || reflexivity.
      * intros (c' & sb' & E' & -> & _ & _ & Hb). 
        inversion E'; subst. destruct sc as [b]. cbn [bytes] in Hb. subst b.
        reflexivity.
  - split; [|intros (c' & sb' & E' & -> & Hlt & _); 
             inversion E'; subst; lia].
    destruct oc; [discriminate|].
    rewrite Z.mod_eq by lia.
    replace ((sb + value c) / 2 ^ 64) with 1.
    2:{ apply Z.div_unique with (r := sb + value c - 2 ^ 64); lia. }
    destruct (len bs <? _); [discriminate|].
    unfold slice. destruct (Z.leb_spec sb (sb + value c - 2 ^ 64 * 1)); [lia|].
    discriminate.
Qed.

(** Under [bytes_ok], [Script::from_bytes] panics exactly when the length
    prefix decodes and [size_bytes + script_len] exceeds [usize], in both
    build modes. *)
Lemma Script_from_bytes_Panic_iff oc bs :
  bytes_ok bs ->
  Script.from_bytes oc bs = Panic <->
  exists c sb, CompactSize.from_bytes bs = Ok (c, sb) /\ 2 ^ 64 <= sb + value c.
Proof.
  intros Hok. unfold Script.from_bytes.
  destruct (CompactSize_from_bytes_spec bs) as [(c & sb & E & Hsb) | E]; rewrite E;
    cbn [bind]; [|split; [discriminate|intros (? & ? & H & _); discriminate]].
  pose proof (CompactSize_from_bytes_value_range _ _ _ Hok E) as (Rv & _).
  pose proof (CompactSize_from_bytes_widths _ _ _ E) as Hw.
  unfold usize_add.
  destruct (Z.ltb_spec (sb + value c) (2 ^ 64)).
  - split; [|intros (c' & sb' & E' & Hge); inversion E'; subst; lia].
    destruct (Z.ltb_spec (len bs) (sb + value c)); [discriminate|].
    unfold slice.
    destruct (Z.leb_spec sb (sb + value c)); [|lia].
    destruct (Z.leb_spec (sb + value c) (len bs)); [discriminate|lia].
  - split; [intros _; exists c, sb; split; [reflexivity|lia]|intros _].
    destruct oc; [reflexivity|].
    rewrite Z.mod_eq by lia.
    replace ((sb + value c) / 2 ^ 64) with 1.
    2:{ apply Z.div_unique with (r := sb + value c - 2 ^ 64); lia. }
    destruct (Z.ltb_spec (len bs) (sb + value c - 2 ^ 64 * 1)); [lia|].
    unfold slice. destruct (Z.leb_spec sb (sb + value c - 2 ^ 64 * 1)); [lia|].
    reflexivity.
Qed.

Lemma Script_from_bytes_app oc bs s sc n :
  Script.from_bytes oc bs = Ok (sc, n) -> Script.from_bytes oc (bs ++ s) = Ok (sc, n).
Proof.
  unfold Script.from_bytes.
  destruct (CompactSize.from_bytes bs) as [[c sb]| |] eqn:E; cbn [bind]; try discriminate.
  rewrite (CompactSize_from_bytes_app _ _ _ _ E). cbn [bind].
  pose proof (CompactSize_from_bytes_spec bs) as Sp. rewrite E in Sp.
  destruct Sp as [(c0 & sb0 & Eq & Hsb) | ?]; [|discriminate].
  injection Eq as Ec Eo; subst c0 sb0.
  rewrite len_app. pose proof (len_nonneg s).
  unfold usize_add.
  destruct (sb + value c <? 2 ^ 64); [|destruct oc; [discriminate|]];
  match goal with |- context [if len bs <? ?e then _ else _] =>
    destruct (Z.ltb_spec (len bs) e); [discriminate|];
    destruct (Z.ltb_spec (len bs + len s) e); [lia|];
    unfold slice; rewrite len_app;
    destruct (Z.leb_spec sb e); [|discriminate];
    destruct (Z.leb_spec e (len bs)); [|discriminate];
    destruct (Z.leb_spec e (len bs + len s)); [|lia]; cbn [andb];
    unfold len in *; rewrite firstn_skipn_app_r by lia; exact (fun H => H)
  end.
Qed.

Lemma Script_from_bytes_consumed oc bs sc n :
  Script.from_bytes oc bs = Ok (sc, n) -> 1 <= n <= len bs.
Proof.
  unfold Script.from_bytes.
  destruct (CompactSize_from_bytes_spec bs) as [(c & sb & E & Hsb) | E]; rewrite E;
    cbn [bind]; [|discriminate].
  unfold usize_add.
  destruct (sb + value c <? 2 ^ 64); [|destruct oc; [discriminate|]];
  match goal with |- context [if len bs <? ?e then _ else _] =>
    destruct (Z.ltb_spec (len bs) e); [discriminate|];
    unfold slice;
    destruct (Z.leb_spec sb e); [|discriminate];
    destruct (Z.leb_spec e (len bs)); [|discriminate]; cbn [andb];
    intros F; injection F as _ <-; lia
  end.
Qed.

Lemma TransactionInput_from_bytes_app oc bs s i n :
  TransactionInput.from_bytes oc bs = Ok (i, n) ->
  TransactionInput.from_bytes oc (bs ++ s) = Ok (i, n).
Proof.
  unfold TransactionInput.from_bytes.
  destruct (OutPoint.from_bytes bs) as [[o ob]| |] eqn:E; cbn [bind]; try discriminate.
  rewrite (OutPoint_from_bytes_app _ _ _ _ E). cbn [bind].
  unfold OutPoint.from_bytes in E.
  destruct (Z.ltb_spec (len bs) 36); [discriminate|]. injection E as _ <-.
  rewrite slice_from_app_r by lia. unfold slice_from.
  destruct (Z.leb_spec 36 (len bs)); [|lia].
  destruct (Script.from_bytes oc (skipn (Z.to_nat 36) bs)) as [[sc sn]| |] eqn:S;
    cbn [bind]; try discriminate.
  rewrite (Script_from_bytes_app _ _ _ _ _ S). cbn [bind].
  rewrite len_app. pose proof (len_nonneg s).
  destruct (Z.ltb_spec (len bs) (36 + sn + 4)); [discriminate|].
  destruct (Z.ltb_spec (len bs + len s) (36 + sn + 4)); [lia|].
  pose proof (Script_from_bytes_consumed _ _ _ _ S).
  rewrite read_le_app_r by lia. exact (fun H => H).
Qed.

Lemma TransactionInput_from_bytes_consumed oc bs i n :
  TransactionInput.from_bytes oc bs = Ok (i, n) -> 41 <= n <= len bs.
Proof.
  unfold TransactionInput.from_bytes.
  destruct (OutPoint.from_bytes bs) as [[o ob]| |] eqn:E; cbn [bind]; try discriminate.
  unfold OutPoint.from_bytes in E.
  destruct (Z.ltb_spec (len bs) 36); [discriminate|]. injection E as _ <-.
  unfold slice_from. destruct (Z.leb_spec 36 (len bs)); [|lia].
  destruct (Script.from_bytes oc (skipn (Z.to_nat 36) bs)) as [[sc sn]| |] eqn:S;
    cbn [bind]; try discriminate.
  pose proof (Script_from_bytes_consumed _ _ _ _ S).
  destruct (Z.ltb_spec (len bs) (36 + sn + 4)); [discriminate|].
  assert (Hb : 41 <= 36 + sn + 4 <= len bs) by lia.
  intros F; injection F as _ <-; exact Hb.
Qed.

Lemma decode_inputs_suffix oc k bs s acc off ins off' :
  BitcoinTransaction.decode_inputs oc k bs acc off = Ok (ins, off') ->
  BitcoinTransaction.decode_inputs oc k (bs ++ s) acc off = Ok (ins, off').
Proof.
  revert acc off. induction k as [|k IH]; intros acc off; cbn [BitcoinTransaction.decode_inputs];
    [exact (fun H => H)|].
  unfold slice_from at 1. destruct (Z.leb_spec off (len bs)); [|discriminate].
  rewrite slice_from_app_r by lia.
  destruct (TransactionInput.from_bytes oc (skipn (Z.to_nat off) bs)) as [[i n]| |] eqn:E;
    cbn [bind]; try discriminate.
  rewrite (TransactionInput_from_bytes_app _ _ _ _ _ E). cbn [bind]. apply IH.
Qed.

Lemma decode_inputs_length oc k bs acc off ins off' :
  BitcoinTransaction.decode_inputs oc k bs acc off = Ok (ins, off') ->
  List.length ins = (List.length acc + k)%nat /\ off <= off' /\ (k <> O -> off' <= len bs).
Proof.
  revert acc off. induction k as [|k IH]; intros acc off; cbn [BitcoinTransaction.decode_inputs].
  - intros F; injection F as <- <-. lia.
  - unfold slice_from. destruct (Z.leb_spec off (len bs)); [|discriminate].
    destruct (TransactionInput.from_bytes oc (skipn (Z.to_nat off) bs)) as [[i n]| |] eqn:E;
      cbn [bind]; try discriminate.
    intros D. pose proof (TransactionInput_from_bytes_consumed _ _ _ _ E) as Hn.
    rewrite len_skipn in Hn.
    destruct (IH _ _ D) as (Hl & Ho & Hb). rewrite length_app in Hl. cbn [List.length] in Hl.
    split; [lia|]. split; [lia|]. intros _. destruct k as [|k].
    + cbn [BitcoinTransaction.decode_inputs] in D. injection D as _ <-. lia.
    + specialize (Hb ltac:(discriminate)). lia.
Qed.

Lemma BitcoinTransaction_from_bytes_ok_inv oc bs t n :
  BitcoinTransaction.from_bytes oc bs = Ok (t, n) ->
  exists c sb ins off,
    CompactSize.from_bytes (skipn 4 bs) = Ok (c, sb)
    /\ BitcoinTransaction.decode_inputs oc (Z.to_nat (value c)) bs [] (sb + 4) = Ok (ins, off)
    /\ off + 4 <= len bs /\ 8 <= len bs /\ 1 <= sb
    /\ t = BitcoinTransaction.new (read_le bs 0 4) ins (read_le bs off 4) /\ n = off + 4.
Proof.
  unfold BitcoinTransaction.from_bytes.
  destruct (Z.ltb_spec (len bs) 8); [discriminate|].
  unfold slice_from. destruct (Z.leb_spec 4 (len bs)); [|lia].
  destruct (CompactSize_from_bytes_spec (skipn (Z.to_nat 4) bs)) as [(c & sb & E & Hsb) | E];
    rewrite E; cbn [bind]; [|discriminate].
  destruct (BitcoinTransaction.decode_inputs oc (Z.to_nat (value c)) bs [] (sb + 4))
    as [[ins off]| |] eqn:D; cbn [bind]; try discriminate.
  destruct (Z.ltb_spec (len bs) (off + 4)); [discriminate|].
  intros F; injection F as <- <-.
  exists c, sb, ins, off. repeat split; auto; lia.
Qed.

Lemma BitcoinTransaction_from_bytes_app oc bs s t n :
  BitcoinTransaction.from_bytes oc bs = Ok (t, n) ->
  BitcoinTransaction.from_bytes oc (bs ++ s) = Ok (t, n).
Proof.
  intros H. destruct (BitcoinTransaction_from_bytes_ok_inv _ _ _ _ H)
    as (c & sb & ins & off & E & D & Hoff & H8 & Hsb & -> & ->).
  pose proof (decode_inputs_length _ _ _ _ _ _ _ D) as (_ & Ho & _).
  unfold BitcoinTransaction.from_bytes. rewrite len_app. pose proof (len_nonneg s).
  destruct (Z.ltb_spec (len bs + len s) 8); [lia|].
  rewrite slice_from_app_r by lia.
  rewrite (CompactSize_from_bytes_app _ _ _ _ E). cbn [bind].
  rewrite (decode_inputs_suffix _ _ _ _ _ _ _ _ D). cbn [bind].
  destruct (Z.ltb_spec (len bs + len s) (off + 4)); [lia|].
  rewrite !read_le_app_r by (cbn [Z.of_nat Pos.of_succ_nat Pos.succ]; lia).
  reflexivity.
Qed.

Lemma to_le_from_le l : bytes_ok l -> to_le (List.length l) (from_le l) = l.
Proof.
  induction 1 as [|b l Hb _ IH]; [reflexivity|]. cbn [List.length from_le to_le].
  replace (b + 256 * from_le l) with (b + from_le l * 256) by lia.
  rewrite Z.mod_add, Z.div_add, Z.mod_small, Z.div_small by lia.
  now rewrite Z.add_0_l, IH.
Qed.

Lemma firstn_add_split (l : list Z) a b :
  firstn (a + b) l = firstn a l ++ firstn b (skipn a l).
Proof.
  revert l; induction a as [|a IH]; intros l; [reflexivity|].
  destruct l as [|x l]; cbn [firstn skipn Nat.add]; [now rewrite firstn_nil|].
  now rewrite IH.
Qed.

Lemma to_le_read_le_tag b0 r k :
  bytes_ok r -> (k <= List.length r)%nat -> to_le k (read_le (b0 :: r) 1 k) = firstn k r.
Proof.
  intros Hr Hk. unfold read_le. change (skipn (Z.to_nat 1) (b0 :: r)) with r.
  assert (Hl : List.length (firstn k r) = k) by (rewrite length_firstn; lia).
  rewrite <- Hl at 1. apply to_le_from_le, bytes_ok_firstn, Hr.
Qed.

Lemma OutPoint_from_bytes_reencode bs o n :
  bytes_ok bs -> OutPoint.from_bytes bs = Ok (o, n) ->
  OutPoint.to_bytes o = firstn (Z.to_nat n) bs.
Proof.
  intros Hok. unfold OutPoint.from_bytes.
  destruct (Z.ltb_spec (len bs) 36); [discriminate|].
  intros F; injection F as <- <-.
  unfold OutPoint.to_bytes, OutPoint.new; cbn [txid txid0 vout].
  change (Z.to_nat 36) with (32 + 4)%nat. rewrite firstn_add_split. f_equal.
  unfold read_le. change (Z.to_nat 32) with 32%nat.
  assert (Hl : List.length (firstn 4 (skipn 32 bs)) = 4%nat).
  { rewrite length_firstn, length_skipn. unfold len in *. lia. }
  rewrite <- Hl at 1. apply to_le_from_le, bytes_ok_firstn, bytes_ok_skipn, Hok.
Qed.

(** Re-encoding a decoded CompactSize never takes more bytes than were
    consumed, and gives back exactly the consumed bytes when it takes as many
    (the decoder also accepts non-minimal encodings). *)
Lemma CompactSize_from_bytes_reencode bs c n :
  bytes_ok bs -> CompactSize.from_bytes bs = Ok (c, n) ->
  len (CompactSize.to_bytes c) <= n
  /\ (len (CompactSize.to_bytes c) = n -> CompactSize.to_bytes c = firstn (Z.to_nat n) bs).
Proof.
  intros Hok. destruct bs as [|b0 r]; [discriminate|].
  inversion Hok as [|? ? Hb Hr]; subst.
  pose proof (read_le_range (b0 :: r) 1 2 Hok) as R2.
  pose proof (read_le_range (b0 :: r) 1 4 Hok) as R4.
  pose proof (read_le_range (b0 :: r) 1 8 Hok) as R8.
  cbn [Z.of_nat Pos.of_succ_nat Pos.succ Z.mul] in R2, R4, R8.
  assert (Hlr : len (b0 :: r) = Z.of_nat (List.length r) + 1)
    by (unfold len; cbn [List.length]; lia).
  rewrite CompactSize_from_bytes_cons.
  destruct (Z.eqb_spec b0 0xFD); [|destruct (Z.eqb_spec b0 0xFE); [|destruct (Z.eqb_spec b0 0xFF)]].
  - destruct (Z.ltb_spec (len (b0 :: r)) 3); [discriminate|].
    intros F; injection F as <- <-. unfold CompactSize.to_bytes; cbn [value CompactSize.new].
    destruct (Z.leb_spec (read_le (b0 :: r) 1 2) 0xFC).
    { len_simpl. split; [lia|intros; lia]. }
    destruct (Z.leb_spec (read_le (b0 :: r) 1 2) 0xFFFF); [|lia].
    rewrite Z.mod_small by lia. len_simpl. split; [lia|intros _].
    change (Z.to_nat 3) with 3%nat. cbn [firstn]. subst b0.
    rewrite to_le_read_le_tag by (auto; lia). reflexivity.
  - destruct (Z.ltb_spec (len (b0 :: r)) 5); [discriminate|].
    intros F; injection F as <- <-. unfold CompactSize.to_bytes; cbn [value CompactSize.new].
    destruct (Z.leb_spec (read_le (b0 :: r) 1 4) 0xFC).
    { len_simpl. split; [lia|intros; lia]. }
    destruct (Z.leb_spec (read_le (b0 :: r) 1 4) 0xFFFF).
    { len_simpl. split; [lia|intros; lia]. }
    destruct (Z.leb_spec (read_le (b0 :: r) 1 4) 0xFFFFFFFF); [|lia].
    rewrite Z.mod_small by lia. len_simpl. split; [lia|intros _].
    change (Z.to_nat 5) with 5%nat. cbn [firstn]. subst b0.
    rewrite to_le_read_le_tag by (auto; lia). reflexivity.
  - destruct (Z.ltb_spec (len (b0 :: r)) 9); [discriminate|].
    intros F; injection F as <- <-. unfold CompactSize.to_bytes; cbn [value CompactSize.new].
    destruct (Z.leb_spec (read_le (b0 :: r) 1 8) 0xFC).
    { len_simpl. split; [lia|intros; lia]. }
    destruct (Z.leb_spec (read_le (b0 :: r) 1 8) 0xFFFF).
    { len_simpl. split; [lia|intros; lia]. }
    destruct (Z.leb_spec (read_le (b0 :: r) 1 8) 0xFFFFFFFF).
    { len_simpl. split; [lia|intros; lia]. }
    len_simpl. split; [lia|intros _].
    change (Z.to_nat 9) with 9%nat. cbn [firstn]. subst b0.
    rewrite to_le_read_le_tag by (auto; lia). reflexivity.
  - intros F; injection F as <- <-. unfold CompactSize.to_bytes; cbn [value CompactSize.new].
    destruct (Z.leb_spec b0 0xFC); [|lia].
    rewrite Z.mod_small by lia. split; [reflexivity|intros _]. reflexivity.
Qed.

Lemma Script_from_bytes_reencode oc bs sc n :
  bytes_ok bs -> Script.from_bytes oc bs = Ok (sc, n) ->
  len (Script.to_bytes sc) <= n
  /\ (len (Script.to_bytes sc) = n -> Script.to_bytes sc = firstn (Z.to_nat n) bs).
Proof.
  intros Hok H. apply (Script_from_bytes_Ok_iff oc bs sc n Hok) in H
    as (c & sb & E & -> & Hlt & Hle & Hsc).
  pose proof (CompactSize_from_bytes_value_range _ _ _ Hok E) as (Rv & _).
  pose proof (CompactSize_from_bytes_spec bs) as Sp. rewrite E in Sp.
  destruct Sp as [(c0 & sb0 & Eq & Hsb) | ?]; [|discriminate].
  injection Eq as Ec Eo; subst c0 sb0.
  destruct (CompactSize_from_bytes_reencode _ _ _ Hok E) as (Hc1 & Hc2).
  assert (HL : List.length (bytes sc) = Z.to_nat (value c)).
  { rewrite Hsc, length_firstn, length_skipn. unfold len in Hle. lia. }
  assert (Hc : CompactSize.new (Z.of_nat (List.length (bytes sc))) = c).
  { rewrite HL, Z2Nat.id by lia. now destruct c. }
  unfold Script.to_bytes. rewrite Hc, len_app.
  assert (Hlb : len (bytes sc) = value c) by (unfold len; rewrite HL; lia).
  rewrite Hlb. split; [lia|intros Heq].
  rewrite Hc2 by lia. rewrite Hsc, <- firstn_add_split. f_equal. lia.
Qed.

Lemma to_le_read_le bs o k :
  bytes_ok bs -> 0 <= o -> o + Z.of_nat k <= len bs ->
  to_le k (read_le bs o k) = firstn k (skipn (Z.to_nat o) bs).
Proof.
  intros Hok Ho Hk. unfold read_le.
  assert (Hl : List.length (firstn k (skipn (Z.to_nat o) bs)) = k).
  { rewrite length_firstn, length_skipn. unfold len in Hk. lia. }
  rewrite <- Hl at 1. apply to_le_from_le, bytes_ok_firstn, bytes_ok_skipn, Hok.
Qed.

Lemma TransactionInput_from_bytes_reencode oc bs i n :
  bytes_ok bs -> TransactionInput.from_bytes oc bs = Ok (i, n) ->
  len (TransactionInput.to_bytes i) <= n
  /\ (len (TransactionInput.to_bytes i) = n ->
      TransactionInput.to_bytes i = firstn (Z.to_nat n) bs).
Proof.
  intros Hok. unfold TransactionInput.from_bytes.
  destruct (OutPoint.from_bytes bs) as [[o ob]| |] eqn:E; cbv beta iota delta [bind]; try discriminate.
  pose proof (OutPoint_from_bytes_reencode _ _ _ Hok E) as Ho.
  unfold OutPoint.from_bytes in E.
  destruct (Z.ltb_spec (len bs) 36); [discriminate|]. injection E as Eo <-.
  unfold slice_from. destruct (Z.leb_spec 36 (len bs)); [|lia].
  destruct (Script.from_bytes oc (skipn (Z.to_nat 36) bs)) as [[sc sn]| |] eqn:S;
    cbv beta iota delta [bind]; try discriminate.
  pose proof (Script_from_bytes_consumed _ _ _ _ S) as Hsn. rewrite len_skipn in Hsn.
  destruct (Script_from_bytes_reencode _ _ _ _ (bytes_ok_skipn _ _ Hok) S) as (Hs1 & Hs2).
  remember (36 + sn) as p eqn:Hp.
  destruct (Z.ltb_spec (len bs) (p + 4)); [discriminate|].
  remember (p + 4) as m eqn:Hm.
  intros F; injection F as <- <-.
  cbv beta iota delta [TransactionInput.to_bytes TransactionInput.new
    previous_output script_sig sequence].
  assert (Hop : len (OutPoint.to_bytes o) = 36).
  { rewrite Ho. unfold len. rewrite length_firstn. unfold len in *. lia. }
  rewrite !len_app, Hop, len_to_le. split; [lia|intros Heq].
  rewrite Ho, Hs2 by lia. rewrite to_le_read_le by (auto; lia).
  subst m p. replace (Z.to_nat (36 + sn + 4)) with (36 + (Z.to_nat sn + 4))%nat by lia.
  rewrite firstn_add_split, firstn_add_split, skipn_skipn. do 3 f_equal.
  f_equal. lia.
Qed.



Lemma hex_lower_table :
  forallb (fun n =>
    match hex.val (ascii_of_nat n) 0 with
    | ROk x => (0 <=? x) && (x <? 16)
               && Ascii.eqb (nth (Z.to_nat x) hex.HEX_CHARS_LOWER "0"%char)
                            (hex_lower (ascii_of_nat n))
    | RErr _ => true
    end) (seq 0 256) = true.
Proof. vm_compute. reflexivity. Qed.

Lemma hex_nibble_table :
  forallb (fun h => forallb (fun l =>
    let b := Z.lor (Z.shiftl (Z.of_nat h) 4) (Z.of_nat l) in
    Nat.eqb (Z.to_nat (Z.shiftr b 4)) h && Nat.eqb (Z.to_nat (Z.land b 15)) l)
    (seq 0 16)) (seq 0 16) = true.
Proof. vm_compute. reflexivity. Qed.

Lemma val_lower c i x :
  hex.val c i = ROk x ->
  0 <= x < 16 /\ nth (Z.to_nat x) hex.HEX_CHARS_LOWER "0"%char = hex_lower c.
Proof.
  intros H. apply (val_ok_idx _ _ 0) in H.
  assert (Hin : In (nat_of_ascii c) (seq 0 256))
    by (apply in_seq; pose proof (nat_ascii_bounded c); lia).
  pose proof (proj1 (forallb_forall _ _) hex_lower_table _ Hin) as T. cbv beta in T.
  rewrite ascii_nat_embedding, H in T.
  apply andb_prop in T as [T T3]. apply andb_prop in T as [T1 T2].
  apply Z.leb_le in T1. apply Z.ltb_lt in T2. apply Ascii.eqb_eq in T3. auto.
Qed.

Lemma hex_nibbles h l :
  0 <= h < 16 -> 0 <= l < 16 ->
  Z.to_nat (Z.shiftr (Z.lor (Z.shiftl h 4) l) 4) = Z.to_nat h
  /\ Z.to_nat (Z.land (Z.lor (Z.shiftl h 4) l) 15) = Z.to_nat l.
Proof.
  intros Hh Hl.
  assert (Ih : In (Z.to_nat h) (seq 0 16)) by (apply in_seq; lia).
  assert (Il : In (Z.to_nat l) (seq 0 16)) by (apply in_seq; lia).
  pose proof (proj1 (forallb_forall _ _) hex_nibble_table _ Ih) as T. cbv beta in T.
  pose proof (proj1 (forallb_forall _ _) T _ Il) as T'. cbv beta zeta in T'.
  rewrite !Z2Nat.id in T' by lia.
  apply andb_prop in T' as [T1 T2]. apply Nat.eqb_eq in T1, T2. auto.
Qed.

Lemma encode_bytes_cons b data :
  hex.encode_bytes (b :: data)
  = String (nth (Z.to_nat (Z.shiftr b 4)) hex.HEX_CHARS_LOWER "0"%char)
      (String (nth (Z.to_nat (Z.land b 15)) hex.HEX_CHARS_LOWER "0"%char)
         (hex.encode_bytes data)).
Proof. reflexivity. Qed.

Lemma decode_chunks_lower :
  forall cs i bs,
  hex.decode_chunks cs i = ROk bs -> Nat.even (List.length cs) = true ->
  hex.encode_bytes bs = string_of_list_ascii (map hex_lower cs).
Proof.
  fix IH 1. intros cs i bs.
  destruct cs as [|c0 [|c1 rest]]; cbn [hex.decode_chunks].
  - intros F _; injection F as <-. reflexivity.
  - intros _ E. discriminate E.
  - destruct (hex.val c0 (2 * i)) as [hi|] eqn:E0; [|discriminate].
    destruct (hex.val c1 (2 * i + 1)) as [lo|] eqn:E1; [|discriminate].
    destruct (hex.decode_chunks rest (i + 1)) as [bs'|] eqn:Er; [|discriminate].
    intros F Hev.
    assert (Eb : Z.lor (Z.shiftl hi 4) lo :: bs' = bs) by congruence. subst bs.
    destruct (val_lower _ _ _ E0) as (Rh & Lh).
    destruct (val_lower _ _ _ E1) as (Rl & Ll).
    destruct (hex_nibbles hi lo Rh Rl) as (N1 & N2).
    rewrite encode_bytes_cons, N1, N2, Lh, Ll. cbn [map string_of_list_ascii].
    f_equal. f_equal. apply (IH rest (i + 1) bs' Er). exact Hev.
Qed.

Lemma even_of_mod2 n : Nat.modulo n 2 = 0%nat -> Nat.even n = true.
Proof.
  intros H. apply Nat.even_spec. exists (n / 2)%nat.
  pose proof (Nat.div_mod_eq n 2). lia.
Qed.

Lemma Txid_deserialize_ok s t :
  Txid.deserialize s = ROk t ->
  Txid.serialize t = string_of_list_ascii (map hex_lower (list_ascii_of_string s)).
Proof.
  unfold Txid.deserialize, hex.decode.
  destruct (Nat.eqb_spec (Nat.modulo (List.length (list_ascii_of_string s)) 2) 0) as [Hm|Hm];
    cbn [negb]; [|discriminate].
  destruct (hex.decode_chunks (list_ascii_of_string s) 0) as [bs|] eqn:D; [|discriminate].
  destruct (Nat.eqb (List.length bs) 32); [|discriminate].
  intros F. assert (Et : Txid_new bs = t) by congruence. subst t.
  unfold Txid.serialize, hex.encode. cbn [txid0].
  exact (decode_chunks_lower _ _ _ D (even_of_mod2 _ Hm)).
Qed.

Lemma BitcoinTransaction_from_bytes_consumed oc bs t n :
  BitcoinTransaction.from_bytes oc bs = Ok (t, n) -> 9 <= n <= len bs.
Proof.
  intros H. destruct (BitcoinTransaction_from_bytes_ok_inv _ _ _ _ H)
    as (c & sb & ins & off & E & D & Hoff & H8 & Hsb & _ & ->).
  pose proof (decode_inputs_length _ _ _ _ _ _ _ D) as (_ & Ho & _). lia.
Qed.

(** ** Properties of the codec beyond the specification's claims *)

Ltac bytes_ok_concrete := unfold bytes_ok; cbn; repeat constructor; lia.

(** X1. For every u64 value, [CompactSize::from_bytes] reads back what
    [CompactSize::to_bytes] wrote, consuming exactly the encoding and ignoring
    any bytes that follow it. *)
Theorem CompactSize_roundtrip_trailing v s :
  u64_ok v ->
  CompactSize.from_bytes (CompactSize.to_bytes (CompactSize.new v) ++ s)
  = Ok (CompactSize.new v, len (CompactSize.to_bytes (CompactSize.new v))).
Proof. apply CompactSize_from_to_bytes. Qed.

(** X2. An [OutPoint] with a 32-byte txid and a u32 index is read back from
    its 36-byte encoding, whatever bytes follow. *)
Theorem OutPoint_roundtrip_trailing o s :
  outpoint_ok o ->
  OutPoint.from_bytes (OutPoint.to_bytes o ++ s) = Ok (o, len (OutPoint.to_bytes o)).
Proof. apply OutPoint_from_to_bytes. Qed.

(** X3. In both build modes, a [Script] is read back from its length-prefixed
    encoding, whatever bytes follow. *)
Theorem Script_roundtrip_trailing oc sc s :
  script_ok sc ->
  Script.from_bytes oc (Script.to_bytes sc ++ s) = Ok (sc, len (Script.to_bytes sc)).
Proof. apply Script_from_to_bytes. Qed.

(** X4. In both build modes, a well-formed [TransactionInput] is read back
    from its encoding, whatever bytes follow. *)
Theorem TransactionInput_roundtrip_trailing oc i s :
  input_ok i ->
  TransactionInput.from_bytes oc (TransactionInput.to_bytes i ++ s)
  = Ok (i, len (TransactionInput.to_bytes i)).
Proof. apply TransactionInput_from_to_bytes. Qed.

(** X5. Every binary decoder only looks at the bytes it consumes: a
    successful decode of a buffer gives the same value and byte count when
    more bytes are appended to the buffer. *)
Theorem decoders_ignore_trailing_bytes :
  (forall bs s c n, CompactSize.from_bytes bs = Ok (c, n) ->
     CompactSize.from_bytes (bs ++ s) = Ok (c, n)) /\
  (forall bs s o n, OutPoint.from_bytes bs = Ok (o, n) ->
     OutPoint.from_bytes (bs ++ s) = Ok (o, n)) /\
  (forall oc bs s sc n, Script.from_bytes oc bs = Ok (sc, n) ->
     Script.from_bytes oc (bs ++ s) = Ok (sc, n)) /\
  (forall oc bs s i n, TransactionInput.from_bytes oc bs = Ok (i, n) ->
     TransactionInput.from_bytes oc (bs ++ s) = Ok (i, n)) /\
  (forall oc bs s t n, BitcoinTransaction.from_bytes oc bs = Ok (t, n) ->
     BitcoinTransaction.from_bytes oc (bs ++ s) = Ok (t, n)).
Proof.
  split; [exact CompactSize_from_bytes_app|].
  split; [exact OutPoint_from_bytes_app|].
  split; [exact Script_from_bytes_app|].
  split; [exact TransactionInput_from_bytes_app|].
  exact BitcoinTransaction_from_bytes_app.
Qed.

(** X6. The byte count a successful decode returns never exceeds the buffer
    length, and is at least 1 for a CompactSize or a Script, exactly 36 for an
    OutPoint, at least 41 for an input and at least 9 for a transaction. *)
Theorem decoders_consumed_within_buffer :
  (forall bs c n, CompactSize.from_bytes bs = Ok (c, n) -> 1 <= n <= len bs) /\
  (forall bs o n, OutPoint.from_bytes bs = Ok (o, n) -> n = 36 /\ n <= len bs) /\
  (forall oc bs sc n, Script.from_bytes oc bs = Ok (sc, n) -> 1 <= n <= len bs) /\
  (forall oc bs i n, TransactionInput.from_bytes oc bs = Ok (i, n) -> 41 <= n <= len bs) /\
  (forall oc bs t n, BitcoinTransaction.from_bytes oc bs = Ok (t, n) -> 9 <= n <= len bs).
Proof.
  split.
  { intros bs c n E. destruct (CompactSize_from_bytes_spec bs) as [(c' & n' & E' & H) | E'];
      rewrite E in E'; [injection E' as _ <-; exact H|discriminate]. }
  split.
  { intros bs o n. unfold OutPoint.from_bytes.
    destruct (Z.ltb_spec (len bs) 36); [discriminate|]. intros F; injection F as _ <-. lia. }
  split; [exact Script_from_bytes_consumed|].
  split; [exact TransactionInput_from_bytes_consumed|].
  exact BitcoinTransaction_from_bytes_consumed.
Qed.


(** X8. On bytes in 0..255, [Script::from_bytes] succeeds exactly when the
    length prefix decodes to [script_len] in [size_bytes] bytes,
    [size_bytes + script_len] fits in a usize and in the buffer; it then
    returns the [script_len] bytes after the prefix and consumes
    [size_bytes + script_len] bytes, in both build modes. *)
Theorem Script_from_bytes_success oc bs sc n :
  bytes_ok bs ->
  Script.from_bytes oc bs = Ok (sc, n) <->
  exists c sb, CompactSize.from_bytes bs = Ok (c, sb)
    /\ n = sb + value c /\ n < 2 ^ 64 /\ n <= len bs
    /\ bytes sc = firstn (Z.to_nat (value c)) (skipn (Z.to_nat sb) bs).
Proof. apply Script_from_bytes_Ok_iff. Qed.

(** X9. On bytes in 0..255, [Script::from_bytes] panics exactly when the
    length prefix decodes and [size_bytes + script_len] is 2^64 or more, in
    both build modes. *)
Theorem Script_from_bytes_panic_exactly_on_overflow oc bs :
  bytes_ok bs ->
  Script.from_bytes oc bs = Panic <->
  exists c sb, CompactSize.from_bytes bs = Ok (c, sb) /\ 2 ^ 64 <= sb + value c.
Proof. apply Script_from_bytes_Panic_iff. Qed.

(** X10. A decoded transaction's version is the little-endian u32 of bytes
    0..4, its lock time the little-endian u32 of the last 4 consumed bytes,
    and its number of inputs the CompactSize count that starts at byte 4. *)
Theorem BitcoinTransaction_decoded_fields oc bs t n :
  BitcoinTransaction.from_bytes oc bs = Ok (t, n) ->
  version t = read_le bs 0 4 /\ lock_time t = read_le bs (n - 4) 4 /\
  exists c sb, CompactSize.from_bytes (skipn 4 bs) = Ok (c, sb)
    /\ List.length (inputs t) = Z.to_nat (value c).
Proof.
  intros H. destruct (BitcoinTransaction_from_bytes_ok_inv _ _ _ _ H)
    as (c & sb & ins & off & E & D & Hoff & H8 & Hsb & -> & ->).
  pose proof (decode_inputs_length _ _ _ _ _ _ _ D) as (Hl & _).
  cbn [version lock_time inputs BitcoinTransaction.new].
  split; [reflexivity|]. split; [f_equal; lia|].
  exists c, sb. split; [exact E|exact Hl].
Qed.

(** X11. On bytes in 0..255, re-encoding a decoded [OutPoint] gives back
    exactly the 36 bytes it was decoded from. *)
Theorem OutPoint_decode_encode bs o n :
  bytes_ok bs -> OutPoint.from_bytes bs = Ok (o, n) ->
  OutPoint.to_bytes o = firstn (Z.to_nat n) bs.
Proof. apply OutPoint_from_bytes_reencode. Qed.

(** X12. On bytes in 0..255, re-encoding a decoded CompactSize never takes
    more bytes than were consumed, and gives back exactly the consumed bytes
    when it takes as many; a shorter re-encoding means the input was a
    non-minimal encoding, which the decoder accepts. *)
Theorem CompactSize_decode_encode bs c n :
  bytes_ok bs -> CompactSize.from_bytes bs = Ok (c, n) ->
  len (CompactSize.to_bytes c) <= n
  /\ (len (CompactSize.to_bytes c) = n -> CompactSize.to_bytes c = firstn (Z.to_nat n) bs).
Proof. apply CompactSize_from_bytes_reencode. Qed.

(** X13. On bytes in 0..255, re-encoding a decoded [Script] never takes more
    bytes than were consumed, and gives back exactly the consumed bytes when
    it takes as many. *)
Theorem Script_decode_encode oc bs sc n :
  bytes_ok bs -> Script.from_bytes oc bs = Ok (sc, n) ->
  len (Script.to_bytes sc) <= n
  /\ (len (Script.to_bytes sc) = n -> Script.to_bytes sc = firstn (Z.to_nat n) bs).
Proof. apply Script_from_bytes_reencode. Qed.

(** X14. On bytes in 0..255, re-encoding a decoded [TransactionInput] never
    takes more bytes than were consumed, and gives back exactly the consumed
    bytes when it takes as many. *)
Theorem TransactionInput_decode_encode oc bs i n :
  bytes_ok bs -> TransactionInput.from_bytes oc bs = Ok (i, n) ->
  len (TransactionInput.to_bytes i) <= n
  /\ (len (TransactionInput.to_bytes i) = n ->
      TransactionInput.to_bytes i = firstn (Z.to_nat n) bs).
Proof. apply TransactionInput_from_bytes_reencode. Qed.


(** X16. Whenever [Txid] deserialization accepts a string, serializing the
    result gives the same string with the hex letters A..F lowercased. *)
Theorem Txid_deserialize_serialize s t :
  Txid.deserialize s = ROk t ->
  Txid.serialize t = string_of_list_ascii (map hex_lower (list_ascii_of_string s)).
Proof. apply Txid_deserialize_ok. Qed.

Lemma CompactSize_roundtrip_trailing_witness :
  u64_ok 70000 /\
  CompactSize.from_bytes (CompactSize.to_bytes (CompactSize.new 70000) ++ [1; 2])
  = Ok (CompactSize.new 70000, len (CompactSize.to_bytes (CompactSize.new 70000))).
Proof.
  assert (H : u64_ok 70000) by (unfold u64_ok; lia).
  split; [exact H|]. apply CompactSize_roundtrip_trailing. exact H.
Defined.

Lemma OutPoint_roundtrip_trailing_witness :
  outpoint_ok (OutPoint.new (repeat 7 32) 5) /\
  OutPoint.from_bytes (OutPoint.to_bytes (OutPoint.new (repeat 7 32) 5) ++ [1])
  = Ok (OutPoint.new (repeat 7 32) 5, len (OutPoint.to_bytes (OutPoint.new (repeat 7 32) 5))).
Proof.
  assert (H : outpoint_ok (OutPoint.new (repeat 7 32) 5)) by wf_concrete.
  split; [exact H|]. apply OutPoint_roundtrip_trailing. exact H.
Defined.

Lemma Script_roundtrip_trailing_witness :
  script_ok (Script.new [0xAA; 0xBB; 0xCC]) /\
  Script.from_bytes false (Script.to_bytes (Script.new [0xAA; 0xBB; 0xCC]) ++ [1])
  = Ok (Script.new [0xAA; 0xBB; 0xCC], len (Script.to_bytes (Script.new [0xAA; 0xBB; 0xCC]))).
Proof.
  assert (H : script_ok (Script.new [0xAA; 0xBB; 0xCC])) by wf_concrete.
  split; [exact H|]. apply Script_roundtrip_trailing. exact H.
Defined.

Lemma TransactionInput_roundtrip_trailing_witness :
  input_ok example_input /\
  TransactionInput.from_bytes true (TransactionInput.to_bytes example_input ++ [1])
  = Ok (example_input, len (TransactionInput.to_bytes example_input)).
Proof.
  assert (H : input_ok example_input) by wf_concrete.
  split; [exact H|]. apply TransactionInput_roundtrip_trailing. exact H.
Defined.

Lemma decoders_ignore_trailing_bytes_witness :
  CompactSize.from_bytes ([0xFD; 0x34; 0x12] ++ [9]) = Ok (CompactSize.new 0x1234, 3) /\
  OutPoint.from_bytes (repeat 7 36 ++ [9])
    = Ok (OutPoint.new (repeat 7 32) (from_le [7; 7; 7; 7]), 36) /\
  Script.from_bytes true ([2; 0xAA; 0xBB] ++ [9]) = Ok (Script.new [0xAA; 0xBB], 3) /\
  TransactionInput.from_bytes true (TransactionInput.to_bytes example_input ++ [9])
    = Ok (example_input, 44) /\
  BitcoinTransaction.from_bytes true (BitcoinTransaction.to_bytes example_tx ++ [9])
    = Ok (example_tx, 97).
Proof.
  destruct decoders_ignore_trailing_bytes as (H1 & H2 & H3 & H4 & H5).
  split; [apply H1; vm_compute; reflexivity|].
  split; [apply H2; vm_compute; reflexivity|].
  split; [apply H3; vm_compute; reflexivity|].
  split; [apply H4; vm_compute; reflexivity|].
  apply H5; vm_compute; reflexivity.
Defined.

Lemma decoders_consumed_within_buffer_witness :
  (1 <= 3 <= len [0xFD; 0x34; 0x12]) /\
  (36 = 36 /\ 36 <= len (repeat 7 36)) /\
  (1 <= 3 <= len [2; 0xAA; 0xBB]) /\
  (41 <= 44 <= len (TransactionInput.to_bytes example_input)) /\
  (9 <= 97 <= len (BitcoinTransaction.to_bytes example_tx)).
Proof.
  destruct decoders_consumed_within_buffer as (H1 & H2 & H3 & H4 & H5).
  split; [apply (H1 _ (CompactSize.new 0x1234)); vm_compute; reflexivity|].
  split; [apply (H2 _ (OutPoint.new (repeat 7 32) (from_le [7; 7; 7; 7])));
          vm_compute; reflexivity|].
  split; [apply (H3 true _ (Script.new [0xAA; 0xBB])); vm_compute; reflexivity|].
  split; [apply (H4 true _ example_input); vm_compute; reflexivity|].
  apply (H5 true _ example_tx); vm_compute; reflexivity.
Defined.


Lemma Script_from_bytes_success_witness :
  bytes_ok [2; 0xAA; 0xBB] /\
  Script.from_bytes true [2; 0xAA; 0xBB] = Ok (Script.new [0xAA; 0xBB], 3).
Proof.
  assert (H : bytes_ok [2; 0xAA; 0xBB]) by bytes_ok_concrete.
  split; [exact H|].
  apply (proj2 (Script_from_bytes_success true _ _ _ H)).
  exists (CompactSize.new 2), 1. vm_compute. repeat split; congruence.
Defined.

Lemma Script_from_bytes_panic_exactly_on_overflow_witness :
  bytes_ok (repeat 0xFF 9) /\ Script.from_bytes false (repeat 0xFF 9) = Panic.
Proof.
  assert (H : bytes_ok (repeat 0xFF 9)) by bytes_ok_concrete.
  split; [exact H|].
  apply (proj2 (Script_from_bytes_panic_exactly_on_overflow false _ H)).
  exists (CompactSize.new (2 ^ 64 - 1)), 9. split; [vm_compute; reflexivity|].
  cbn [value CompactSize.new]. lia.
Defined.

Lemma BitcoinTransaction_decoded_fields_witness :
  BitcoinTransaction.from_bytes true (BitcoinTransaction.to_bytes example_tx)
    = Ok (example_tx, 97) /\
  version example_tx = read_le (BitcoinTransaction.to_bytes example_tx) 0 4 /\
  lock_time example_tx = read_le (BitcoinTransaction.to_bytes example_tx) (97 - 4) 4 /\
  exists c sb, CompactSize.from_bytes (skipn 4 (BitcoinTransaction.to_bytes example_tx))
                 = Ok (c, sb)
    /\ List.length (inputs example_tx) = Z.to_nat (value c).
Proof.
  assert (E : BitcoinTransaction.from_bytes true (BitcoinTransaction.to_bytes example_tx)
                = Ok (example_tx, 97)) by (vm_compute; reflexivity).
  split; [exact E|]. exact (BitcoinTransaction_decoded_fields _ _ _ _ E).
Defined.

Lemma OutPoint_decode_encode_witness :
  bytes_ok (repeat 7 36 ++ [9]) /\
  OutPoint.from_bytes (repeat 7 36 ++ [9])
    = Ok (OutPoint.new (repeat 7 32) (from_le [7; 7; 7; 7]), 36) /\
  OutPoint.to_bytes (OutPoint.new (repeat 7 32) (from_le [7; 7; 7; 7]))
    = firstn (Z.to_nat 36) (repeat 7 36 ++ [9]).
Proof.
  assert (H : bytes_ok (repeat 7 36 ++ [9])) by bytes_ok_concrete.
  assert (E : OutPoint.from_bytes (repeat 7 36 ++ [9])
                = Ok (OutPoint.new (repeat 7 32) (from_le [7; 7; 7; 7]), 36))
    by (vm_compute; reflexivity).
  split; [exact H|]. split; [exact E|]. exact (OutPoint_decode_encode _ _ _ H E).
Defined.

Lemma CompactSize_decode_encode_witness :
  bytes_ok [0xFD; 0x05; 0x00] /\
  CompactSize.from_bytes [0xFD; 0x05; 0x00] = Ok (CompactSize.new 5, 3) /\
  len (CompactSize.to_bytes (CompactSize.new 5)) <= 3 /\
  (len (CompactSize.to_bytes (CompactSize.new 5)) = 3 ->
   CompactSize.to_bytes (CompactSize.new 5) = firstn (Z.to_nat 3) [0xFD; 0x05; 0x00]).
Proof.
  assert (H : bytes_ok [0xFD; 0x05; 0x00]) by bytes_ok_concrete.
  assert (E : CompactSize.from_bytes [0xFD; 0x05; 0x00] = Ok (CompactSize.new 5, 3))
    by (vm_compute; reflexivity).
  split; [exact H|]. split; [exact E|]. exact (CompactSize_decode_encode _ _ _ H E).
Defined.

Lemma Script_decode_encode_witness :
  bytes_ok [2; 0xAA; 0xBB; 9] /\
  Script.from_bytes true [2; 0xAA; 0xBB; 9] = Ok (Script.new [0xAA; 0xBB], 3) /\
  len (Script.to_bytes (Script.new [0xAA; 0xBB])) <= 3 /\
  (len (Script.to_bytes (Script.new [0xAA; 0xBB])) = 3 ->
   Script.to_bytes (Script.new [0xAA; 0xBB]) = firstn (Z.to_nat 3) [2; 0xAA; 0xBB; 9]).
Proof.
  assert (H : bytes_ok [2; 0xAA; 0xBB; 9]) by bytes_ok_concrete.
  assert (E : Script.from_bytes true [2; 0xAA; 0xBB; 9] = Ok (Script.new [0xAA; 0xBB], 3))
    by (vm_compute; reflexivity).
  split; [exact H|]. split; [exact E|]. exact (Script_decode_encode _ _ _ _ H E).
Defined.

Lemma TransactionInput_decode_encode_witness :
  bytes_ok (TransactionInput.to_bytes example_input) /\
  TransactionInput.from_bytes true (TransactionInput.to_bytes example_input)
    = Ok (example_input, 44) /\
  len (TransactionInput.to_bytes example_input) <= 44 /\
  (len (TransactionInput.to_bytes example_input) = 44 ->
   TransactionInput.to_bytes example_input
   = firstn (Z.to_nat 44) (TransactionInput.to_bytes example_input)).
Proof.
  assert (H : bytes_ok (TransactionInput.to_bytes example_input)) by bytes_ok_concrete.
  assert (E : TransactionInput.from_bytes true (TransactionInput.to_bytes example_input)
                = Ok (example_input, 44)) by (vm_compute; reflexivity).
  split; [exact H|]. split; [exact E|]. exact (TransactionInput_decode_encode _ _ _ _ H E).
Defined.


Lemma Txid_deserialize_serialize_witness :
  Txid.deserialize "00112233445566778899AABBCCDDEEFF00112233445566778899aAbBcCdDeEfF"
    = ROk (Txid_new [0x00; 0x11; 0x22; 0x33; 0x44; 0x55; 0x66; 0x77;
                     0x88; 0x99; 0xAA; 0xBB; 0xCC; 0xDD; 0xEE; 0xFF;
                     0x00; 0x11; 0x22; 0x33; 0x44; 0x55; 0x66; 0x77;
                     0x88; 0x99; 0xAA; 0xBB; 0xCC; 0xDD; 0xEE; 0xFF]) /\
  Txid.serialize (Txid_new [0x00; 0x11; 0x22; 0x33; 0x44; 0x55; 0x66; 0x77;
                            0x88; 0x99; 0xAA; 0xBB; 0xCC; 0xDD; 0xEE; 0xFF;
                            0x00; 0x11; 0x22; 0x33; 0x44; 0x55; 0x66; 0x77;
                            0x88; 0x99; 0xAA; 0xBB; 0xCC; 0xDD; 0xEE; 0xFF])
  = "00112233445566778899aabbccddeeff00112233445566778899aabbccddeeff"%string.
Proof.
  assert (E : Txid.deserialize "00112233445566778899AABBCCDDEEFF00112233445566778899aAbBcCdDeEfF"
    = ROk (Txid_new [0x00; 0x11; 0x22; 0x33; 0x44; 0x55; 0x66; 0x77;
                     0x88; 0x99; 0xAA; 0xBB; 0xCC; 0xDD; 0xEE; 0xFF;
                     0x00; 0x11; 0x22; 0x33; 0x44; 0x55; 0x66; 0x77;
                     0x88; 0x99; 0xAA; 0xBB; 0xCC; 0xDD; 0xEE; 0xFF]))
    by (vm_compute; reflexivity).
  split; [exact E|]. rewrite (Txid_deserialize_serialize _ _ E). vm_compute. reflexivity.
Defined.
